(** * TheatreService: the ETag protocol of the theatre endpoints

    A shallow embedding of [src/main.py]: the canonical JSON payload that
    [_calc_etag] hashes, SHA-256 and its hex digest, the in-memory stores
    and the four theatre handlers ([create_theatre], [get_theatre],
    [replace_theatre], [delete_theatre]) as state-and-error computations. *)

From Stdlib Require Import ZArith NArith Ascii String List Lia.
From Stdlib Require Import DecimalString DecimalZ DecimalPos DecimalN.
From stdpp Require Import base option list sorting gmap strings.

Local Open Scope Z_scope.

(** ** Characters used by the encoders *)

Definition DQUOTE : ascii := "034"%char.
Definition BACKSLASH : ascii := "092"%char.

(** ** SHA-256 ([hashlib.sha256])

    Words are integers in [0, 2^32); every operation writes its wrap-around
    out. *)

Module SHA256.

Definition wrap (x : Z) : Z := x mod 4294967296.
Definition add32 (x y : Z) : Z := wrap (x + y).
Definition not32 (x : Z) : Z := Z.lxor x 4294967295.
Definition rotr (n x : Z) : Z :=
  wrap (Z.lor (Z.shiftr x n) (Z.shiftl x (32 - n))).
Definition shr (n x : Z) : Z := Z.shiftr x n.

Definition Ch (x y z : Z) : Z := Z.lxor (Z.land x y) (Z.land (not32 x) z).
Definition Maj (x y z : Z) : Z :=
  Z.lxor (Z.lxor (Z.land x y) (Z.land x z)) (Z.land y z).
Definition Sigma0 (x : Z) : Z := Z.lxor (Z.lxor (rotr 2 x) (rotr 13 x)) (rotr 22 x).
Definition Sigma1 (x : Z) : Z := Z.lxor (Z.lxor (rotr 6 x) (rotr 11 x)) (rotr 25 x).
Definition sigma0 (x : Z) : Z := Z.lxor (Z.lxor (rotr 7 x) (rotr 18 x)) (shr 3 x).
Definition sigma1 (x : Z) : Z := Z.lxor (Z.lxor (rotr 17 x) (rotr 19 x)) (shr 10 x).

Definition K : list Z :=
  [ 1116352408; 1899447441; 3049323471; 3921009573;
    961987163; 1508970993; 2453635748; 2870763221;
    3624381080; 310598401; 607225278; 1426881987;
    1925078388; 2162078206; 2614888103; 3248222580;
    3835390401; 4022224774; 264347078; 604807628;
    770255983; 1249150122; 1555081692; 1996064986;
    2554220882; 2821834349; 2952996808; 3210313671;
    3336571891; 3584528711; 113926993; 338241895;
    666307205; 773529912; 1294757372; 1396182291;
    1695183700; 1986661051; 2177026350; 2456956037;
    2730485921; 2820302411; 3259730800; 3345764771;
    3516065817; 3600352804; 4094571909; 275423344;
    430227734; 506948616; 659060556; 883997877;
    958139571; 1322822218; 1537002063; 1747873779;
    1955562222; 2024104815; 2227730452; 2361852424;
    2428436474; 2756734187; 3204031479; 3329325298 ].

(** The eight working variables / the chaining value. *)
Record state := State {
  sa : Z; sb : Z; sc : Z; sd : Z; se : Z; sf : Z; sg : Z; sh : Z
}.

Definition H0 : state :=
  State 1779033703 3144134277 1013904242 2773480762
        1359893119 2600822924 528734635 1541459225.

(** Padding: a [0x80] byte, zero bytes up to 56 modulo 64, then the bit
    length as eight big-endian bytes. *)
Definition be_bytes (n : nat) (x : Z) : list Z :=
  map (fun i => (Z.shiftr x (8 * Z.of_nat i)) mod 256) (rev (seq 0 n)).

Definition pad (msg : list Z) : list Z :=
  let len := Z.of_nat (length msg) in
  let zeros := Z.to_nat ((55 - len) mod 64) in
  msg ++ 128 :: repeat 0 zeros ++ be_bytes 8 (8 * len).

Fixpoint words (bs : list Z) : list Z :=
  match bs with
  | b0 :: b1 :: b2 :: b3 :: rest =>
      (b0 * 16777216 + b1 * 65536 + b2 * 256 + b3) :: words rest
  | _ => []
  end.

Fixpoint blocks (fuel : nat) (ws : list Z) : list (list Z) :=
  match fuel, ws with
  | S fuel', _ :: _ => take 16 ws :: blocks fuel' (drop 16 ws)
  | _, _ => []
  end.

(** Message schedule, kept newest word first. *)
Fixpoint schedule (n : nat) (rw : list Z) : list Z :=
  match n with
  | O => rw
  | S n' =>
      let w := add32 (add32 (sigma1 (nth 1 rw 0)) (nth 6 rw 0))
                     (add32 (sigma0 (nth 14 rw 0)) (nth 15 rw 0)) in
      schedule n' (w :: rw)
  end.

Definition round (s : state) (kw : Z * Z) : state :=
  let '(k, w) := kw in
  let t1 := add32 (add32 (add32 (sh s) (Sigma1 (se s)))
                         (add32 (Ch (se s) (sf s) (sg s)) k)) w in
  let t2 := add32 (Sigma0 (sa s)) (Maj (sa s) (sb s) (sc s)) in
  State (add32 t1 t2) (sa s) (sb s) (sc s) (add32 (sd s) t1) (se s) (sf s) (sg s).

Definition compress (h : state) (block : list Z) : state :=
  let w := rev (schedule 48 (rev block)) in
  let s := fold_left round (combine K w) h in
  State (add32 (sa h) (sa s)) (add32 (sb h) (sb s))
        (add32 (sc h) (sc s)) (add32 (sd h) (sd s))
        (add32 (se h) (se s)) (add32 (sf h) (sf s))
        (add32 (sg h) (sg s)) (add32 (sh h) (sh s)).

Definition sha256 (msg : list Z) : state :=
  let ws := words (pad msg) in
  fold_left compress (blocks (length ws) ws) H0.

Definition state_words (s : state) : list Z :=
  [sa s; sb s; sc s; sd s; se s; sf s; sg s; sh s].

(** [hexdigest]: each word as eight lowercase hex digits. *)
Definition hexchar (d : Z) : ascii :=
  if d <? 10 then ascii_of_N (Z.to_N (48 + d)) else ascii_of_N (Z.to_N (87 + d)).

Definition hex_digits (n : nat) (x : Z) : list ascii :=
  map (fun i => hexchar ((Z.shiftr x (4 * Z.of_nat i)) mod 16)) (rev (seq 0 n)).

Definition hexdigest (s : state) : list ascii :=
  concat (map (hex_digits 8) (state_words s)).

End SHA256.

(** ** Python values

    A Python [str] is a sequence of Unicode code points; the text the
    encoders emit is ASCII and is kept as a list of characters. *)

Definition pystr := list N.

Definition pystr_of_string (s : string) : pystr :=
  map N_of_ascii (list_ascii_of_string s).

(** [str.__le__]: lexicographic on code points. *)
Fixpoint pystr_le (s1 s2 : pystr) : bool :=
  match s1, s2 with
  | [], _ => true
  | _ :: _, [] => false
  | c1 :: s1', c2 :: s2' =>
      if (c1 <? c2)%N then true
      else if (c1 =? c2)%N then pystr_le s1' s2'
      else false
  end.

(** [uuid.UUID]: a 128-bit integer. *)
Definition UUID := N.

(** A naive [datetime.datetime], as [datetime.utcnow()] returns it. *)
Record datetime := Datetime {
  year : N; month : N; day : N;
  hour : N; minute : N; second : N; microsecond : N
}.

Inductive pyvalue :=
| PyStr (s : pystr)
| PyInt (z : Z)
| PyUUID (u : UUID)
| PyDatetime (d : datetime).

(** *** Number formatting *)

(** [n] lowercase hex digits of [x], most significant first
    (['%032x'], ['{0:04x}']). *)
Definition hex_digits (n : nat) (x : N) : list ascii :=
  SHA256.hex_digits n (Z.of_N x).

(** [n] decimal digits of [x], most significant first (["%04d"], ["%02d"],
    ["{:06d}"] on the ranges the fields of a datetime are confined to). *)
Definition decchar (d : N) : ascii := ascii_of_N (48 + d).

Definition dec_digits (n : nat) (x : N) : list ascii :=
  map (fun i => decchar ((x / 10 ^ N.of_nat i) mod 10)%N) (rev (seq 0 n)).

(** [int.__repr__] *)
Definition int_repr (z : Z) : list ascii :=
  list_ascii_of_string (NilZero.string_of_int (Z.to_int z)).

(** [UUID.__str__]: the 32 hex digits grouped 8-4-4-4-12. *)
Definition uuid_str (u : UUID) : list ascii :=
  let x := hex_digits 32 u in
  take 8 x ++ "-"%char :: take 4 (drop 8 x) ++ "-"%char :: take 4 (drop 12 x)
    ++ "-"%char :: take 4 (drop 16 x) ++ "-"%char :: drop 20 x.

(** [datetime.isoformat()] with the default separator and timespec. *)
Definition isoformat (d : datetime) : list ascii :=
  dec_digits 4 (year d) ++ "-"%char :: dec_digits 2 (month d)
    ++ "-"%char :: dec_digits 2 (day d)
    ++ "T"%char :: dec_digits 2 (hour d)
    ++ ":"%char :: dec_digits 2 (minute d)
    ++ ":"%char :: dec_digits 2 (second d)
    ++ (if (microsecond d =? 0)%N then []
        else "."%char :: dec_digits 6 (microsecond d)).

Definition text_to_pystr (t : list ascii) : pystr := map N_of_ascii t.

(** ** The JSON encoder ([json.dumps] with [PydanticJSONEncoder]) *)

(** [PydanticJSONEncoder.default]: the text for a datetime or a UUID;
    [None] where [super().default(o)] raises [TypeError]. *)
Definition default (o : pyvalue) : option pystr :=
  match o with
  | PyDatetime d => Some (text_to_pystr (isoformat d ++ ["Z"%char]))
  | PyUUID u => Some (text_to_pystr (uuid_str u))
  | _ => None
  end.

(** One character under [ensure_ascii]: the short escapes, printable ASCII
    as it is, [\uXXXX] below 0x10000 and a surrogate pair above. *)
Definition escape_char (c : N) : list ascii :=
  if (c =? 34)%N then [BACKSLASH; DQUOTE]
  else if (c =? 92)%N then [BACKSLASH; BACKSLASH]
  else if (c =? 10)%N then [BACKSLASH; "n"%char]
  else if (c =? 13)%N then [BACKSLASH; "r"%char]
  else if (c =? 9)%N then [BACKSLASH; "t"%char]
  else if (c =? 8)%N then [BACKSLASH; "b"%char]
  else if (c =? 12)%N then [BACKSLASH; "f"%char]
  else if ((32 <=? c) && (c <=? 126))%N then [ascii_of_N c]
  else if (c <? 65536)%N then BACKSLASH :: "u"%char :: hex_digits 4 c
  else
    let n := (c - 65536)%N in
    let s1 := N.lor 55296 (N.land (N.shiftr n 10) 1023) in
    let s2 := N.lor 56320 (N.land n 1023) in
    BACKSLASH :: "u"%char :: hex_digits 4 s1
      ++ BACKSLASH :: "u"%char :: hex_digits 4 s2.

Definition py_encode_basestring_ascii (s : pystr) : list ascii :=
  DQUOTE :: flat_map escape_char s ++ [DQUOTE].

(** A value: strings and integers directly, anything else through
    [default]. *)
Definition encode_value (v : pyvalue) : list ascii :=
  match v with
  | PyStr s => py_encode_basestring_ascii s
  | PyInt z => int_repr z
  | _ => from_option py_encode_basestring_ascii [] (default v)
  end.

(** A [dict] with string keys, in insertion order. *)
Definition pydict := list (pystr * pyvalue).

Definition key_le : relation (pystr * pyvalue) :=
  fun a b => Is_true (pystr_le a.1 b.1).

Definition encode_item (kv : pystr * pyvalue) : list ascii :=
  py_encode_basestring_ascii kv.1 ++ ":"%char :: encode_value kv.2.

Fixpoint join_items (items : list (list ascii)) : list ascii :=
  match items with
  | [] => []
  | [x] => x
  | x :: rest => x ++ ","%char :: join_items rest
  end.

(** [json.dumps(d, sort_keys=True, separators=(",", ":"),
    cls=PydanticJSONEncoder)] *)
Definition json_dumps (d : pydict) : list ascii :=
  "{"%char :: join_items (map encode_item (merge_sort key_le d)) ++ ["}"%char].

(** [str.encode("utf-8")] on text whose characters are below 256. *)
Definition encode_utf8 (t : list ascii) : list Z :=
  flat_map (fun c =>
    let n := Z.of_N (N_of_ascii c) in
    if n <? 128 then [n]
    else [Z.lor 192 (Z.shiftr n 6); Z.lor 128 (Z.land n 63)]) t.

(** ** The theatre models

    Modelled from the spec: [models/theatre.py] is not among the sources.
    The field names are the keys [list_theatres] fills for its
    [TheatreRead] response model; [TheatreRead] adds [id], [created_at]
    and [updated_at] to the business fields of [TheatreCreate]. Every
    business field and both timestamps are optional here, which covers a
    declaration as required (always [Some]) as well as one as [Optional]. *)

Record TheatreCreate := mkTheatreCreate {
  c_name : option pystr;
  c_address : option pystr;
  c_city : option pystr;
  c_state : option pystr;
  c_postal_code : option pystr;
  c_country : option pystr;
  c_phone : option pystr;
  c_email : option pystr;
  c_capacity : option Z
}.

Record TheatreRead := mkTheatreRead {
  id : UUID;
  name : option pystr;
  address : option pystr;
  city : option pystr;
  state : option pystr;
  postal_code : option pystr;
  country : option pystr;
  phone : option pystr;
  email : option pystr;
  capacity : option Z;
  created_at : option datetime;
  updated_at : option datetime
}.

(** What the default factories of [TheatreRead] produce when the
    constructor is not given [id], [created_at] or [updated_at]: values
    drawn from the environment (a random UUID, the clock). *)
Record Defaults := mkDefaults {
  default_id : UUID;
  default_created_at : option datetime;
  default_updated_at : option datetime
}.

(** [TheatreRead] called with the keyword arguments [theatre.model_dump()] *)
Definition TheatreRead_of_create (env : Defaults) (t : TheatreCreate) : TheatreRead :=
  mkTheatreRead (default_id env)
    (c_name t) (c_address t) (c_city t) (c_state t) (c_postal_code t)
    (c_country t) (c_phone t) (c_email t) (c_capacity t)
    (default_created_at env) (default_updated_at env).

(** [TheatreRead] called with [id=theatre_id] and the keyword arguments
    [theatre.model_dump()] *)
Definition TheatreRead_with_id (env : Defaults) (theatre_id : UUID)
    (t : TheatreCreate) : TheatreRead :=
  mkTheatreRead theatre_id
    (c_name t) (c_address t) (c_city t) (c_state t) (c_postal_code t)
    (c_country t) (c_phone t) (c_email t) (c_capacity t)
    (default_created_at env) (default_updated_at env).

(** [obj.model_dump()]: every field, in declaration order. *)
Definition field (k : string) (v : option pyvalue) : pystr * option pyvalue :=
  (pystr_of_string k, v).

Definition model_dump (t : TheatreRead) : list (pystr * option pyvalue) :=
  [ field "id" (Some (PyUUID (id t)));
    field "name" (PyStr <$> name t);
    field "address" (PyStr <$> address t);
    field "city" (PyStr <$> city t);
    field "state" (PyStr <$> state t);
    field "postal_code" (PyStr <$> postal_code t);
    field "country" (PyStr <$> country t);
    field "phone" (PyStr <$> phone t);
    field "email" (PyStr <$> email t);
    field "capacity" (PyInt <$> capacity t);
    field "created_at" (PyDatetime <$> created_at t);
    field "updated_at" (PyDatetime <$> updated_at t) ].

(** [exclude_none=True] *)
Definition exclude_none (d : list (pystr * option pyvalue)) : pydict :=
  omap (fun kv => pair kv.1 <$> kv.2) d.

(** ** [_calc_etag] *)

Definition payload (obj : TheatreRead) : list Z :=
  encode_utf8 (json_dumps (exclude_none (model_dump obj))).

Definition _calc_etag (obj : TheatreRead) : string :=
  string_of_list_ascii
    (DQUOTE :: SHA256.hexdigest (SHA256.sha256 (payload obj)) ++ [DQUOTE]).

(** ** HTTP values *)

Inductive Body :=
| Empty
| Model (t : TheatreRead)
| Dict (d : list (string * list ascii))
| Detail (detail : string).

Record Response := mkResponse {
  status_code : Z;
  headers : list (string * string);
  body : Body
}.

Inductive exn :=
| HTTPException (status_code : Z) (detail : string)
| KeyError.

(** What a path operation function hands back to the framework: a model
    instance or a dict to serialise, or a ready [Response]. *)
Inductive Returned :=
| RetModel (t : TheatreRead)
| RetDict (d : list (string * list ascii))
| RetResponse (r : Response).

(** ** The stores and the handlers *)

Section Service.

(** [models/screen.py], [models/movie.py] and [models/showtime.py] are not
    among the sources; the three value types stay abstract. *)
Context {ScreenRead MovieRead ShowtimeRead : Type}.

(** The module-level "databases". *)
Record Stores := mkStores {
  theatres : gmap UUID TheatreRead;
  screens : gmap UUID ScreenRead;
  movies : gmap UUID MovieRead;
  showtimes : gmap UUID ShowtimeRead
}.

Definition with_theatres (m : gmap UUID TheatreRead) (g : Stores) : Stores :=
  mkStores m (screens g) (movies g) (showtimes g).

(** The state one call of a handler works on: the globals and the headers
    of the [response] object the framework injects. *)
Record Frame := mkFrame {
  globals : Stores;
  response_headers : list (string * string)
}.

Inductive outcome (A : Type) :=
| Return (a : A)
| Raise (e : exn).
Global Arguments Return {A} a.
Global Arguments Raise {A} e.

(** State and exceptions: a raise keeps the state reached so far. *)
Definition M (A : Type) : Type := Frame -> outcome A * Frame.

Definition ret {A} (a : A) : M A := fun f => (Return a, f).

Definition bind {A B} (m : M A) (k : A -> M B) : M B :=
  fun f =>
    match m f with
    | (Return a, f') => k a f'
    | (Raise e, f') => (Raise e, f')
    end.

Definition raise {A} (e : exn) : M A := fun f => (Raise e, f).

Notation "x <- m ;; k" := (bind m (fun x => k))
  (at level 100, m at next level, right associativity).
Notation "m ;; k" := (bind m (fun _ => k))
  (at level 100, right associativity).

(** [theatres.get(k)] *)
Definition theatres_get (k : UUID) : M (option TheatreRead) :=
  fun f => (Return (theatres (globals f) !! k), f).

(** [theatres[k] = v] *)
Definition theatres_setitem (k : UUID) (v : TheatreRead) : M unit :=
  fun f =>
    (Return tt,
     mkFrame (with_theatres (<[k := v]> (theatres (globals f))) (globals f))
             (response_headers f)).

(** [del theatres[k]] *)
Definition theatres_delitem (k : UUID) : M unit :=
  fun f =>
    match theatres (globals f) !! k with
    | Some _ =>
        (Return tt,
         mkFrame (with_theatres (delete k (theatres (globals f))) (globals f))
                 (response_headers f))
    | None => (Raise KeyError, f)
    end.

(** [response.headers[h] = v] *)
Definition set_header (h v : string) : M unit :=
  fun f =>
    (Return tt,
     mkFrame (globals f)
             ((h, v) :: filter (fun hv => hv.1 <> h) (response_headers f))).

Definition create_theatre (env : Defaults) (theatre : TheatreCreate) : M Returned :=
  let new_theatre := TheatreRead_of_create env theatre in
  theatres_setitem (id new_theatre) new_theatre ;;
  set_header "ETag" (_calc_etag new_theatre) ;;
  ret (RetModel new_theatre).

Definition get_theatre (theatre_id : UUID) (if_none_match : option string)
    : M Returned :=
  item <- theatres_get theatre_id ;;
  match item with
  | None => raise (HTTPException 404 "Theatre not found")
  | Some item =>
      let etag := _calc_etag item in
      if decide (if_none_match = Some etag)
      then ret (RetResponse (mkResponse 304 [("ETag"%string, etag)] Empty))
      else
        set_header "ETag" etag ;;
        ret (RetModel item)
  end.

(** The second function of the same name, registered after the first on
    the same method and path. *)
Definition get_theatre_2 (theatre_id : UUID) : M Returned :=
  item <- theatres_get theatre_id ;;
  match item with
  | None => raise (HTTPException 404 "Theatre not found")
  | Some item => ret (RetModel item)
  end.

Definition replace_theatre (env : Defaults) (theatre_id : UUID)
    (theatre : TheatreCreate) (if_match : option string) : M Returned :=
  existing <- theatres_get theatre_id ;;
  match existing with
  | None => raise (HTTPException 404 "Theatre not found")
  | Some existing =>
      let current_etag := _calc_etag existing in
      match if_match with
      | None =>
          raise (HTTPException 428 "Precondition Required: missing If-Match")
      | Some m =>
          if decide (m <> current_etag)
          then raise (HTTPException 412 "Precondition Failed: ETag mismatch")
          else
            let replacement := TheatreRead_with_id env theatre_id theatre in
            theatres_setitem theatre_id replacement ;;
            let new_etag := _calc_etag replacement in
            set_header "ETag" new_etag ;;
            ret (RetModel replacement)
      end
  end.

Definition delete_theatre (theatre_id : UUID) (if_match : option string)
    : M Returned :=
  existing <- theatres_get theatre_id ;;
  match existing with
  | None => raise (HTTPException 404 "Theatre not found")
  | Some existing =>
      let current_etag := _calc_etag existing in
      if match if_match with
         | Some m => bool_decide (m <> current_etag)
         | None => false
         end
      then raise (HTTPException 412 "Precondition Failed: ETag mismatch")
      else
        theatres_delitem theatre_id ;;
        ret (RetDict [("status"%string, list_ascii_of_string "deleted");
                      ("id"%string, uuid_str theatre_id)])
  end.

(** *** The framework around a handler

    A request starts with an empty injected [response]; a returned model
    or dict is sent with the route's status code and the injected headers,
    a returned [Response] as it is, an [HTTPException] as its status code
    with the detail, any other exception as a 500. *)
Definition serve (default_status : Z) (h : M Returned) (g : Stores)
    : Response * Stores :=
  match h (mkFrame g []) with
  | (Return (RetModel t), f) =>
      (mkResponse default_status (response_headers f) (Model t), globals f)
  | (Return (RetDict d), f) =>
      (mkResponse default_status (response_headers f) (Dict d), globals f)
  | (Return (RetResponse r), f) => (r, globals f)
  | (Raise (HTTPException s d), f) => (mkResponse s [] (Detail d), globals f)
  | (Raise KeyError, f) =>
      (mkResponse 500 [] (Detail "Internal Server Error"), globals f)
  end.

(** The routes in registration order; a request goes to the first one
    whose method and path match. *)
Inductive Request :=
| POST_theatres (env : Defaults) (theatre : TheatreCreate)
| GET_theatre (theatre_id : UUID) (if_none_match : option string)
| PUT_theatre (env : Defaults) (theatre_id : UUID) (theatre : TheatreCreate)
    (if_match : option string)
| DELETE_theatre (theatre_id : UUID) (if_match : option string).

Definition routes_GET_theatre (theatre_id : UUID)
    (if_none_match : option string) : list (M Returned) :=
  [get_theatre theatre_id if_none_match; get_theatre_2 theatre_id].

Definition handle (r : Request) (g : Stores) : Response * Stores :=
  match r with
  | POST_theatres env theatre => serve 201 (create_theatre env theatre) g
  | GET_theatre theatre_id if_none_match =>
      match routes_GET_theatre theatre_id if_none_match with
      | h :: _ => serve 200 h g
      | [] => (mkResponse 404 [] (Detail "Not Found"), g)
      end
  | PUT_theatre env theatre_id theatre if_match =>
      serve 200 (replace_theatre env theatre_id theatre if_match) g
  | DELETE_theatre theatre_id if_match =>
      serve 200 (delete_theatre theatre_id if_match) g
  end.

(** The identifier a request addresses. *)
Definition target (r : Request) : UUID :=
  match r with
  | POST_theatres env _ => default_id env
  | GET_theatre k _ => k
  | PUT_theatre _ k _ _ => k
  | DELETE_theatre k _ => k
  end.

End Service.

(** ** The ETag header format *)

Definition is_lower_hex (c : ascii) : bool :=
  let n := N_of_ascii c in
  (((48 <=? n) && (n <=? 57)) || ((97 <=? n) && (n <=? 102)))%N.

(** A double quote, 64 lowercase hex characters, a double quote. *)
Definition is_etag_format (s : string) : bool :=
  match list_ascii_of_string s with
  | q :: rest =>
      bool_decide (q = DQUOTE)
      && forallb is_lower_hex (take 64 rest)
      && bool_decide (length (take 64 rest) = 64%nat)
      && bool_decide (drop 64 rest = [DQUOTE])
  | [] => false
  end.

(** ** Reading the encodings back

    The decoders below invert the encoders on valid input; the proofs use
    them to show that the canonical payload determines the value. *)

(** Digit values. *)
Definition hexval (c : ascii) : option N :=
  let n := N_of_ascii c in
  if ((48 <=? n) && (n <=? 57))%N then Some (n - 48)%N
  else if ((97 <=? n) && (n <=? 102))%N then Some (n - 87)%N
  else None.

Definition decval (c : ascii) : N := (N_of_ascii c - 48)%N.

(** A [UUID] holds 128 bits. *)
Definition valid_uuid (u : UUID) : bool := (u <? 2 ^ 128)%N.

(** The ranges [datetime] enforces on its fields. *)
Definition valid_datetime (d : datetime) : bool :=
  ((1 <=? year d) && (year d <=? 9999)
   && (1 <=? month d) && (month d <=? 12)
   && (1 <=? day d) && (day d <=? 31)
   && (hour d <=? 23) && (minute d <=? 59) && (second d <=? 59)
   && (microsecond d <=? 999999))%N.

(** Removing the dashes of the 8-4-4-4-12 grouping. *)
Definition undash (s : list ascii) : list ascii :=
  take 8 s ++ take 4 (drop 9 s) ++ take 4 (drop 14 s) ++ take 4 (drop 19 s)
    ++ drop 24 s.

(** A Unicode scalar value: below 0x110000 and not a surrogate. *)
Definition valid_char (c : N) : bool :=
  ((c <? 55296) || ((57343 <? c) && (c <? 1114112)))%N.

Definition valid_str (s : pystr) : bool := forallb valid_char s.

(** Reading four hex digits back. *)
Definition read_hex4 (t : list ascii) : option (N * list ascii) :=
  match t with
  | a :: b :: c :: d :: r =>
      match hexval a, hexval b, hexval c, hexval d with
      | Some x, Some y, Some z, Some w =>
          Some (((x * 16 + y) * 16 + z) * 16 + w, r)%N
      | _, _, _, _ => None
      end
  | _ => None
  end.

(** Reading one escaped character back. *)
Definition unescape_step (t : list ascii) : option (N * list ascii) :=
  match t with
  | [] => None
  | c :: r =>
      if Ascii.eqb c DQUOTE then None
      else if Ascii.eqb c BACKSLASH then
        match r with
        | [] => None
        | x :: r' =>
            if Ascii.eqb x DQUOTE then Some (34%N, r')
            else if Ascii.eqb x BACKSLASH then Some (92%N, r')
            else if Ascii.eqb x "n" then Some (10%N, r')
            else if Ascii.eqb x "r" then Some (13%N, r')
            else if Ascii.eqb x "t" then Some (9%N, r')
            else if Ascii.eqb x "b" then Some (8%N, r')
            else if Ascii.eqb x "f" then Some (12%N, r')
            else if Ascii.eqb x "u" then
              match read_hex4 r' with
              | Some (v, r'') =>
                  if ((55296 <=? v) && (v <? 56320))%N then
                    match r'' with
                    | b1 :: b2 :: r3 =>
                        match read_hex4 r3 with
                        | Some (v2, r4) =>
                            Some (65536 + (v - 55296) * 1024 + (v2 - 56320), r4)%N
                        | None => None
                        end
                    | _ => None
                    end
                  else Some (v, r'')
              | None => None
              end
            else None
        end
      else Some (N_of_ascii c, r)
  end.

(** Reading a decimal numeral back. *)
Fixpoint read_uint (t : list ascii) : Decimal.uint * list ascii :=
  match t with
  | c :: r =>
      let '(d, r') := read_uint r in
      if Ascii.eqb c "0" then (Decimal.D0 d, r')
      else if Ascii.eqb c "1" then (Decimal.D1 d, r')
      else if Ascii.eqb c "2" then (Decimal.D2 d, r')
      else if Ascii.eqb c "3" then (Decimal.D3 d, r')
      else if Ascii.eqb c "4" then (Decimal.D4 d, r')
      else if Ascii.eqb c "5" then (Decimal.D5 d, r')
      else if Ascii.eqb c "6" then (Decimal.D6 d, r')
      else if Ascii.eqb c "7" then (Decimal.D7 d, r')
      else if Ascii.eqb c "8" then (Decimal.D8 d, r')
      else if Ascii.eqb c "9" then (Decimal.D9 d, r')
      else (Decimal.Nil, t)
  | [] => (Decimal.Nil, [])
  end.

Definition read_int (t : list ascii) : Decimal.signed_int * list ascii :=
  match t with
  | c :: r =>
      if Ascii.eqb c "-"
      then let '(d, r') := read_uint r in (Decimal.Neg d, r')
      else let '(d, r') := read_uint t in (Decimal.Pos d, r')
  | [] => (Decimal.Pos Decimal.Nil, [])
  end.

(** What follows a number in the payload: a comma or a closing brace. *)
Definition ends_number (r : list ascii) : Prop :=
  exists r', r = ","%char :: r' \/ r = "}"%char :: r'.

(** What the encoder finally writes for a value: a string or a number. *)
Definition normal (v : pyvalue) : pystr + Z :=
  match v with
  | PyStr s => inl s
  | PyInt z => inr z
  | PyUUID u => inl (text_to_pystr (uuid_str u))
  | PyDatetime d => inl (text_to_pystr (isoformat d ++ ["Z"%char]))
  end.

Definition normal_item (kv : pystr * pyvalue) : pystr * (pystr + Z) :=
  (kv.1, normal kv.2).

Definition valid_value (v : pyvalue) : bool :=
  match v with
  | PyStr s => valid_str s
  | _ => true
  end.

Definition valid_item (kv : pystr * pyvalue) : bool :=
  valid_str kv.1 && valid_value kv.2.

(** A theatre as validation lets it in: a 128-bit identifier, strings of
    Unicode scalar values, timestamps within range. *)
Definition valid_opt {A} (p : A -> bool) (o : option A) : bool :=
  match o with
  | Some a => p a
  | None => true
  end.

Definition valid_theatre (t : TheatreRead) : bool :=
  valid_uuid (id t)
  && valid_opt valid_str (name t) && valid_opt valid_str (address t)
  && valid_opt valid_str (city t) && valid_opt valid_str (state t)
  && valid_opt valid_str (postal_code t) && valid_opt valid_str (country t)
  && valid_opt valid_str (phone t) && valid_opt valid_str (email t)
  && valid_opt valid_datetime (created_at t)
  && valid_opt valid_datetime (updated_at t).

Definition normal_dump (t : TheatreRead) : list (pystr * (pystr + Z)) :=
  normal_item <$> exclude_none (model_dump t).

(** Reading one UTF-8 encoded character (below 256) back. *)
Definition utf8_step (bs : list Z) : option (ascii * list Z) :=
  match bs with
  | [] => None
  | b :: r =>
      if b <? 128 then Some (ascii_of_N (Z.to_N b), r)
      else
        match r with
        | [] => None
        | b2 :: r' =>
            Some (ascii_of_N (Z.to_N ((b - 192) * 64 + (b2 - 128))), r')
        end
  end.

(** The digest as a 256-bit number, most significant word first. *)
Definition digest_value (s : SHA256.state) : Z :=
  fold_left (fun acc w => acc * 4294967296 + w) (SHA256.state_words s) 0.

Definition word_bounded (s : SHA256.state) : Prop :=
  Forall (fun w => 0 <= w < 4294967296) (SHA256.state_words s).

(** The same theatre with another capacity. *)
Definition with_capacity (c : Z) (t : TheatreRead) : TheatreRead :=
  mkTheatreRead (id t) (name t) (address t) (city t) (state t) (postal_code t)
    (country t) (phone t) (email t) (Some c) (created_at t) (updated_at t).

(** A request whose body and generated defaults are valid. *)
Definition valid_request (r : Request) : bool :=
  match r with
  | POST_theatres env t =>
      valid_theatre (TheatreRead_of_create env t)
  | PUT_theatre env theatre_id t _ =>
      valid_theatre (TheatreRead_with_id env theatre_id t)
  | GET_theatre _ _ | DELETE_theatre _ _ => true
  end.

(** Every stored theatre is valid and sits under its own identifier. *)
Definition store_ok {S M T : Type} (g : @Stores S M T) : Prop :=
  map_Forall (fun k t => id t = k /\ valid_theatre t = true) (theatres g).

(** The business fields, those a client sends. *)
Definition business_fields (t : TheatreRead) :=
  (name t, address t, city t, state t, postal_code t, country t, phone t,
   email t, capacity t).

(** Two theatres differ in the value of at least one field of the dump. *)
Definition differ_in_a_field (t1 t2 : TheatreRead) : Prop :=
  id t1 <> id t2 \/ name t1 <> name t2 \/ address t1 <> address t2
  \/ city t1 <> city t2 \/ state t1 <> state t2
  \/ postal_code t1 <> postal_code t2 \/ country t1 <> country t2
  \/ phone t1 <> phone t2 \/ email t1 <> email t2
  \/ capacity t1 <> capacity t2 \/ created_at t1 <> created_at t2
  \/ updated_at t1 <> updated_at t2.

(** ** Sample values *)

Module Sample.

(** The bytes of an ASCII message. *)
Definition ascii_bytes (s : string) : list Z :=
  map (fun c => Z.of_N (N_of_ascii c)) (list_ascii_of_string s).

Definition grand_cinema : TheatreCreate :=
  mkTheatreCreate
    (Some (pystr_of_string "Grand Cinema")) (Some (pystr_of_string "1 Main St"))
    (Some (pystr_of_string "New York")) (Some (pystr_of_string "NY"))
    (Some (pystr_of_string "10027")) (Some (pystr_of_string "USA"))
    None (Some (pystr_of_string "a@b.com")) (Some 60).

Definition bigger_cinema : TheatreCreate :=
  mkTheatreCreate
    (Some (pystr_of_string "Grand Cinema")) (Some (pystr_of_string "1 Main St"))
    (Some (pystr_of_string "New York")) (Some (pystr_of_string "NY"))
    (Some (pystr_of_string "10027")) (Some (pystr_of_string "USA"))
    None (Some (pystr_of_string "a@b.com")) (Some 90).

Definition k1 : UUID := 0x123e4567e89b42d3a456426614174000%N.
Definition k2 : UUID := 0x99999999999949998999999999999999%N.

Definition env1 : Defaults :=
  mkDefaults k1 (Some (Datetime 2025 1 15 10 20 30 0))
             (Some (Datetime 2025 1 15 10 20 30 0)).
Definition env2 : Defaults :=
  mkDefaults k2 (Some (Datetime 2025 1 15 10 20 30 0))
             (Some (Datetime 2025 1 15 10 20 30 0)).

Definition stored1 : TheatreRead := TheatreRead_of_create env1 grand_cinema.
Definition stored2 : TheatreRead := TheatreRead_of_create env2 grand_cinema.
Definition stored3 : TheatreRead := TheatreRead_of_create env1 bigger_cinema.

Definition store0 : @Stores unit unit unit := mkStores ∅ ∅ ∅ ∅.
Definition store1 : @Stores unit unit unit :=
  mkStores {[ k1 := stored1 ]} ∅ ∅ ∅.

(** The store after two creations from the same body. *)
Definition store2 : @Stores unit unit unit :=
  (handle (POST_theatres env2 grand_cinema)
     (handle (POST_theatres env1 grand_cinema) store0).2).2.

End Sample.

(** ** Sequences of requests *)

(** Serving a sequence of requests, one after the other. *)
Definition run_requests {S M T : Type} (rs : list Request) (g : @Stores S M T)
    : @Stores S M T :=
  foldl (fun g r => (handle r g).2) g rs.

(** Every stored theatre sits under its own identifier. *)
Definition keys_are_ids {S M T : Type} (g : @Stores S M T) : Prop :=
  map_Forall (fun k t => id t = k) (theatres g).

(** ** Text shapes *)

Definition is_digit (c : ascii) : bool :=
  let n := N_of_ascii c in ((48 <=? n) && (n <=? 57))%N.

(** A text against a picture: [d] stands for a decimal digit, [h] for a
    lowercase hex digit, any other character for itself. *)
Fixpoint matches (picture t : list ascii) : bool :=
  match picture, t with
  | [], [] => true
  | p :: picture', c :: t' =>
      (if Ascii.eqb p "d" then is_digit c
       else if Ascii.eqb p "h" then is_lower_hex c
       else Ascii.eqb p c)
      && matches picture' t'
  | _, _ => false
  end.

Definition is_timestamp_format (t : list ascii) : bool :=
  matches (list_ascii_of_string "dddd-dd-ddTdd:dd:ddZ") t
  || matches (list_ascii_of_string "dddd-dd-ddTdd:dd:dd.ddddddZ") t.

Definition is_uuid_format (t : list ascii) : bool :=
  matches (list_ascii_of_string "hhhhhhhh-hhhh-hhhh-hhhh-hhhhhhhhhhhh") t.


(** ** Health

    Modelled from the spec: [models/health.py] is not among the sources; the
    fields are the keyword arguments [make_health] passes. The clock and
    the address the host name resolves to come from the environment; the
    lookup can fail. *)

Record Health := mkHealth {
  h_status : Z;
  h_status_message : string;
  h_timestamp : list ascii;
  h_ip_address : string;
  h_echo : option string;
  h_path_echo : option string
}.

Record HostEnv := mkHostEnv {
  utcnow : datetime;
  gethostbyname : option string
}.

Definition make_health (env : HostEnv) (echo path_echo : option string)
    : option Health :=
  ip ← gethostbyname env;
  Some (mkHealth 200 "OK" (isoformat (utcnow env) ++ ["Z"%char]) ip echo path_echo).

Definition get_health_no_path (env : HostEnv) (echo : option string) : option Health :=
  make_health env echo None.

Definition get_health_with_path (env : HostEnv) (path_echo : string)
    (echo : option string) : option Health :=
  make_health env echo (Some path_echo).

(** A value [default] accepts, within the ranges of its type. *)
Definition valid_special (o : pyvalue) : bool :=
  match o with
  | PyUUID u => valid_uuid u
  | PyDatetime d => valid_datetime d
  | _ => false
  end.


(** ** [list_theatres]

    Modelled from the spec: [models/theatreDataService.py] is not among the
    sources. A row is what [list_theatres] reads of an item that
    [get_all_theatres] returns: its name, its address and its two
    timestamps. *)

Record TheatreRow := mkTheatreRow {
  row_name : pystr;
  row_address : pystr;
  row_created_at : datetime;
  row_updated_at : datetime
}.

Definition listed_id : pystr :=
  pystr_of_string "99999999-9999-4999-8999-999999999999".

(** The dict built for one item of the loop. *)
Definition listed (item : TheatreRow) : pydict :=
  [ (pystr_of_string "id", PyStr listed_id);
    (pystr_of_string "name", PyStr (row_name item));
    (pystr_of_string "address", PyStr (row_address item));
    (pystr_of_string "city", PyStr []);
    (pystr_of_string "state", PyStr []);
    (pystr_of_string "postal_code", PyStr []);
    (pystr_of_string "country", PyStr []);
    (pystr_of_string "phone", PyStr []);
    (pystr_of_string "email", PyStr (pystr_of_string "a@b.com"));
    (pystr_of_string "capacity", PyInt 60);
    (pystr_of_string "created_at",
       PyStr (text_to_pystr (isoformat (row_created_at item) ++ ["Z"%char])));
    (pystr_of_string "updated_at",
       PyStr (text_to_pystr (isoformat (row_updated_at item) ++ ["Z"%char]))) ].

(** [items] is what [TheatreDataService().get_all_theatres()] returned. *)
Definition list_theatres (name city state country : option string)
    (items : list TheatreRow) : list pydict :=
  fold_left (fun ans item => ans ++ [listed item]) items [].

(** [obj[k]] *)
Fixpoint getitem (k : pystr) (obj : pydict) : option pyvalue :=
  match obj with
  | [] => None
  | (k', v) :: rest => if decide (k = k') then Some v else getitem k rest
  end.

Definition valid_row (item : TheatreRow) : bool :=
  valid_datetime (row_created_at item) && valid_datetime (row_updated_at item).

(** ** [models/mysql_connector.py]

    The connector talks to a database server. A run of one of its methods
    calls each primitive of the driver at most once, so the server is given
    by what each primitive does when called: return, or raise. The calls
    made and the log lines written are recorded in a trace. The connection
    and the cursor the driver hands out are objects that define neither
    [__bool__] nor [__len__], so [if connection:] and [if cursor:] test for
    [None]; the text of an exception in a log line is its message. *)

Module MySQL.

Inductive exc :=
| Error (msg : string)       (* [mysql.connector.Error] or a subclass *)
| Exception (msg : string).  (* any other exception *)

Definition row := list Z.

Inductive event :=
| Connect
| Cursor (dictionary buffered : bool)
| Execute (query : string) (params : list string)
| FetchAll
| FetchOne
| Commit
| Rollback
| CursorClose
| ConnectionClose
| LogError (msg : string)
| LogInfo (msg : string).

Record Server := mkServer {
  connect : option exc;
  cursor : option exc;
  execute : string -> list string -> option exc;
  fetchall : exc + list row;
  fetchone : exc + option row;
  rowcount : Z;
  commit : option exc;
  rollback : option exc;
  cursor_close : option exc;
  connection_close : option exc
}.

(** The events so far, newest first, and the local variable [cursor] of
    [get_cursor] ([false]: still [None]). *)
Record session := mkSession {
  log : list event;
  cursor_var : bool
}.

(** The events in the order they happened. *)
Definition trace (st : session) : list event := reverse (log st).

Definition T (A : Type) : Type := session -> (exc + A) * session.

Definition ret {A} (a : A) : T A := fun st => (inr a, st).

Definition raise {A} (e : exc) : T A := fun st => (inl e, st).

Definition bind {A B} (m : T A) (k : A -> T B) : T B :=
  fun st =>
    match m st with
    | (inr a, st') => k a st'
    | (inl e, st') => (inl e, st')
    end.

Notation "x <- m ;; k" := (bind m (fun x => k))
  (at level 100, m at next level, right associativity).
Notation "m ;; k" := (bind m (fun _ => k))
  (at level 100, right associativity).

Definition emit (ev : event) : T unit :=
  fun st => (inr tt, mkSession (ev :: log st) (cursor_var st)).

(** A call of a driver primitive: recorded, then it returns or raises. *)
Definition call (ev : event) (o : option exc) : T unit :=
  emit ev ;; match o with None => ret tt | Some e => raise e end.

Definition call_value {A} (ev : event) (o : exc + A) : T A :=
  emit ev ;; match o with inr a => ret a | inl e => raise e end.

Definition set_cursor_var (b : bool) : T unit :=
  fun st => (inr tt, mkSession (log st) b).

Definition get_cursor_var : T bool := fun st => (inr (cursor_var st), st).

(** [try: m except Error as e: h e] *)
Definition except_Error {A} (m : T A) (h : string -> T A) : T A :=
  fun st =>
    match m st with
    | (inl (Error msg), st') => h msg st'
    | r => r
    end.

(** [try: m finally: c]: an exception of [c] replaces the outcome of [m]. *)
Definition finally {A} (m : T A) (c : T unit) : T A :=
  fun st =>
    let '(r, st') := m st in
    match c st' with
    | (inl e, st'') => (inl e, st'')
    | (inr _, st'') => (r, st'')
    end.

Section Connector.

Variable s : Server.

Definition get_connection : T unit :=
  except_Error
    (call Connect (connect s))
    (fun msg =>
       emit (LogError ("Error connecting to database: " ++ msg)) ;;
       raise (Error msg)).

(** [with self.get_cursor(dictionary, buffered) as cursor: body] *)
Definition get_cursor {A} (dictionary buffered : bool) (body : T A) : T A :=
  get_connection ;;
  set_cursor_var false ;;
  finally
    (except_Error
       (call (Cursor dictionary buffered) (cursor s) ;;
        set_cursor_var true ;;
        a <- body ;;
        call Commit (commit s) ;;
        ret a)
       (fun msg =>
          call Rollback (rollback s) ;;
          emit (LogError ("Database error: " ++ msg)) ;;
          raise (Error msg)))
    (c <- get_cursor_var ;;
     (if c then call CursorClose (cursor_close s) else ret tt) ;;
     call ConnectionClose (connection_close s)).

(** [params or ()] *)
Definition params_or_empty (params : option (list string)) : list string :=
  match params with
  | Some (p :: ps) => p :: ps
  | _ => []
  end.

Definition execute_query (query : string) (params : option (list string))
    : T (list row) :=
  get_cursor false false
    (call (Execute query (params_or_empty params))
          (execute s query (params_or_empty params)) ;;
     call_value FetchAll (fetchall s)).

Definition execute_update (query : string) (params : option (list string))
    : T Z :=
  get_cursor false false
    (call (Execute query (params_or_empty params))
          (execute s query (params_or_empty params)) ;;
     ret (rowcount s)).

Definition test_connection : T bool :=
  except_Error
    (get_cursor false false
       (call (Execute "SELECT 1" []) (execute s "SELECT 1" []) ;;
        result <- call_value FetchOne (fetchone s) ;;
        emit (LogInfo "Database connection test successful") ;;
        match result with
        | None => raise (Exception "TypeError")
        | Some [] => raise (Exception "IndexError")
        | Some (x :: _) => ret (x =? 1)
        end))
    (fun msg =>
       emit (LogError ("Connection test failed: " ++ msg)) ;;
       ret false).

End Connector.

Definition start : session := mkSession [] false.

(** The exception the [finally] block of [get_cursor] raises, if any:
    [cursor.close()] is called when the cursor was opened, then
    [connection.close()]. *)
Definition first_close_failure (s : Server) : option exc :=
  match cursor s with
  | None =>
      match cursor_close s with
      | Some c => Some c
      | None => connection_close s
      end
  | Some _ => connection_close s
  end.

(** The events a [with] body may issue: calls on the cursor. *)
Definition cursor_event (ev : event) : bool :=
  match ev with
  | Execute _ _ | FetchAll | FetchOne | LogInfo _ => true
  | _ => false
  end.

(** A body that only uses the cursor. *)
Definition uses_cursor_only {A} (body : T A) : Prop :=
  forall st, cursor_var (body st).2 = cursor_var st
    /\ exists evs, log (body st).2 = evs ++ log st
         /\ forallb cursor_event evs = true.

End MySQL.

(** ** Sample servers and rows *)

Module SampleServers.
Import MySQL.

(** Every call goes through; one row with a 1 is fetched. *)
Definition healthy : Server :=
  mkServer None None (fun _ _ => None) (inr [[1]; [2]]) (inr (Some [1])) 1
           None None None None.

Definition unreachable : Server :=
  mkServer (Some (Error "Can't connect")) None (fun _ _ => None) (inr [])
           (inr None) 0 None None None None.

Definition bad_query_bad_rollback : Server :=
  mkServer None None (fun _ _ => Some (Error "syntax")) (inr []) (inr None) 0
           None (Some (Error "gone away")) None None.

Definition failing_commit : Server :=
  mkServer None None (fun _ _ => None) (inr []) (inr None) 1
           (Some (Error "deadlock")) None None None.

Definition stuck_cursor : Server :=
  mkServer None None (fun _ _ => None) (inr [[1]]) (inr (Some [1])) 1
           None None (Some (Error "Unread result found")) None.

Definition no_row : Server :=
  mkServer None None (fun _ _ => None) (inr []) (inr None) 0
           None None None None.

Definition no_row_stuck_cursor : Server :=
  mkServer None None (fun _ _ => None) (inr []) (inr None) 0
           None None (Some (Error "Unread result found")) None.

Definition no_cursor_bad_rollback : Server :=
  mkServer None (Some (Error "out of resources")) (fun _ _ => None) (inr [])
           (inr None) 0 None (Some (Error "gone away")) None None.

Definition failing_commit_bad_rollback : Server :=
  mkServer None None (fun _ _ => None) (inr [[1]]) (inr None) 1
           (Some (Error "deadlock")) (Some (Exception "socket closed"))
           None None.

(** The body of [execute_query]. *)
Definition query_body (s : Server) (q : string) : T (list row) :=
  bind (call (Execute q []) (execute s q []))
       (fun _ => call_value FetchAll (fetchall s)).

Definition noon : datetime := Datetime 2025 6 1 12 0 0 0.
Definition later : datetime := Datetime 2025 6 1 12 0 0 250000.

Definition host_a : HostEnv := mkHostEnv noon (Some "10.0.0.1"%string).
Definition host_b : HostEnv := mkHostEnv noon (Some "10.0.0.2"%string).

Definition rows : list TheatreRow :=
  [ mkTheatreRow (pystr_of_string "Grand Cinema") (pystr_of_string "1 Main St")
      noon later;
    mkTheatreRow (pystr_of_string "Odeon") (pystr_of_string "2 High St")
      later later ].

End SampleServers.

(** * Properties *)

(** ** SHA-256 on the standard test vectors *)

Example sha256_abc :
  string_of_list_ascii (SHA256.hexdigest (SHA256.sha256 (Sample.ascii_bytes "abc")))
  = "ba7816bf8f01cfea414140de5dae2223b00361a396177a9cb410ff61f20015ad"%string.
Proof. vm_compute. reflexivity. Qed.

Example sha256_empty :
  string_of_list_ascii (SHA256.hexdigest (SHA256.sha256 []))
  = "e3b0c44298fc1c149afbf4c8996fb92427ae41e4649b934ca495991b7852b855"%string.
Proof. vm_compute. reflexivity. Qed.

(** ** The ETag text *)

Lemma hexchar_lower (d : Z) : 0 <= d < 16 -> is_lower_hex (SHA256.hexchar d) = true.
Proof.
  intros Hd.
  assert (d = 0 \/ d = 1 \/ d = 2 \/ d = 3 \/ d = 4 \/ d = 5 \/ d = 6 \/ d = 7
          \/ d = 8 \/ d = 9 \/ d = 10 \/ d = 11 \/ d = 12 \/ d = 13 \/ d = 14
          \/ d = 15) as Hcases by lia.
  repeat (destruct Hcases as [-> | Hcases]; [reflexivity |]).
  by subst.
Qed.

Lemma hex_digits_lower (n : nat) (x : Z) :
  Forall (fun c => is_lower_hex c = true) (SHA256.hex_digits n x).
Proof.
  unfold SHA256.hex_digits. apply List.Forall_map, List.Forall_forall.
  intros i _. apply hexchar_lower, Z.mod_pos_bound. lia.
Qed.

Lemma hex_digits_length (n : nat) (x : Z) : length (SHA256.hex_digits n x) = n.
Proof.
  unfold SHA256.hex_digits.
  by rewrite List.length_map, List.length_rev, List.length_seq.
Qed.

Lemma hexdigest_length (s : SHA256.state) : length (SHA256.hexdigest s) = 64%nat.
Proof.
  unfold SHA256.hexdigest, SHA256.state_words. cbn [List.map concat].
  rewrite !List.length_app, !hex_digits_length. done.
Qed.

Lemma hexdigest_lower (s : SHA256.state) :
  forallb is_lower_hex (SHA256.hexdigest s) = true.
Proof.
  apply List.forallb_forall, List.Forall_forall.
  unfold SHA256.hexdigest. apply List.Forall_concat, List.Forall_map.
  apply List.Forall_forall. intros w _. apply hex_digits_lower.
Qed.

Lemma quoted_hex_format (hex : list ascii) :
  length hex = 64%nat -> forallb is_lower_hex hex = true ->
  is_etag_format (string_of_list_ascii (DQUOTE :: hex ++ [DQUOTE])) = true.
Proof.
  intros Hlen Hhex. unfold is_etag_format.
  rewrite list_ascii_of_string_of_list_ascii.
  rewrite (take_app_length' hex [DQUOTE] 64), (drop_app_length' hex [DQUOTE] 64)
    by done.
  rewrite Hhex, !bool_decide_eq_true_2; done.
Qed.

Lemma calc_etag_format (obj : TheatreRead) : is_etag_format (_calc_etag obj) = true.
Proof.
  apply quoted_hex_format; [apply hexdigest_length | apply hexdigest_lower].
Qed.

(** ** The canonical payload does not depend on the order of the fields *)

Lemma pystr_le_total (s1 s2 : pystr) : pystr_le s1 s2 = true \/ pystr_le s2 s1 = true.
Proof.
  revert s2. induction s1 as [|c1 s1 IH]; intros [|c2 s2]; simpl; auto.
  destruct (N.ltb_spec c1 c2), (N.ltb_spec c2 c1); auto; try lia.
  destruct (N.eqb_spec c1 c2), (N.eqb_spec c2 c1); auto; lia.
Qed.

Lemma pystr_le_trans (s1 s2 s3 : pystr) :
  pystr_le s1 s2 = true -> pystr_le s2 s3 = true -> pystr_le s1 s3 = true.
Proof.
  revert s2 s3.
  induction s1 as [|c1 s1 IH]; intros [|c2 s2] [|c3 s3]; simpl; auto; try done.
  destruct (N.ltb_spec c1 c2), (N.ltb_spec c2 c3), (N.ltb_spec c1 c3);
    auto; try lia;
    destruct (N.eqb_spec c1 c2), (N.eqb_spec c2 c3), (N.eqb_spec c1 c3);
    auto; try lia; try done.
  apply IH.
Qed.

Lemma pystr_le_antisym (s1 s2 : pystr) :
  pystr_le s1 s2 = true -> pystr_le s2 s1 = true -> s1 = s2.
Proof.
  revert s2. induction s1 as [|c1 s1 IH]; intros [|c2 s2]; simpl; try done.
  destruct (N.ltb_spec c1 c2), (N.ltb_spec c2 c1); try lia; try done;
    destruct (N.eqb_spec c1 c2), (N.eqb_spec c2 c1); try lia; try done.
  intros H12 H21. f_equal; [done | by apply IH].
Qed.

Global Instance key_le_total : Total key_le.
Proof.
  intros a b. unfold key_le.
  destruct (pystr_le_total a.1 b.1) as [-> | ->]; [by left | by right].
Qed.

Global Instance key_le_trans : Transitive key_le.
Proof.
  intros a b c. unfold key_le. rewrite !Is_true_true. apply pystr_le_trans.
Qed.

Lemma NoDup_keys_functional {A B} (l : list (A * B)) k v1 v2 :
  NoDup l.*1 -> (k, v1) ∈ l -> (k, v2) ∈ l -> v1 = v2.
Proof.
  induction l as [|[k' v'] l IH]; [by intros _ ?%elem_of_nil |].
  rewrite fmap_cons, NoDup_cons. simpl. intros [Hk Hl].
  rewrite !elem_of_cons. intros [E1 | H1] [E2 | H2].
  - congruence.
  - injection E1 as -> ->. destruct Hk. apply list_elem_of_fmap. by exists (k', v2).
  - injection E2 as -> ->. destruct Hk. apply list_elem_of_fmap. by exists (k', v1).
  - by apply IH.
Qed.

Lemma merge_sort_keys_unique (d1 d2 : pydict) :
  NoDup d1.*1 -> d1 ≡ₚ d2 -> merge_sort key_le d1 = merge_sort key_le d2.
Proof.
  intros Hnd Hp.
  apply (StronglySorted_unique_strong key_le).
  - intros [k1 v1] [k2 v2].
    rewrite !merge_sort_Permutation, <- Hp. unfold key_le. simpl.
    rewrite !Is_true_true. intros H1 H2 H12 H21.
    assert (k1 = k2) as -> by by apply pystr_le_antisym.
    f_equal. by eapply NoDup_keys_functional.
  - apply StronglySorted_merge_sort; apply _.
  - apply StronglySorted_merge_sort; apply _.
  - by rewrite !merge_sort_Permutation.
Qed.

Lemma json_dumps_order (d1 d2 : pydict) :
  NoDup d1.*1 -> d1 ≡ₚ d2 -> json_dumps d1 = json_dumps d2.
Proof.
  intros Hnd Hp. unfold json_dumps. by rewrite (merge_sort_keys_unique d1 d2).
Qed.

Lemma exclude_none_keys (d : list (pystr * option pyvalue)) :
  (exclude_none d).*1 `sublist_of` d.*1.
Proof.
  induction d as [|[k [v|]] d IH]; simpl.
  - constructor.
  - by constructor.
  - by constructor.
Qed.

Lemma model_dump_keys (R : TheatreRead) :
  (model_dump R).*1 =
  pystr_of_string <$>
    ["id"; "name"; "address"; "city"; "state"; "postal_code"; "country";
     "phone"; "email"; "capacity"; "created_at"; "updated_at"]%string.
Proof. reflexivity. Qed.

Lemma model_dump_NoDup (R : TheatreRead) : NoDup (exclude_none (model_dump R)).*1.
Proof.
  apply (sublist_NoDup _ (model_dump R).*1); [| apply exclude_none_keys].
  rewrite model_dump_keys. apply (bool_decide_unpack _). by vm_compute.
Qed.

Lemma calc_etag_of_dump (R R' : TheatreRead) :
  model_dump R = model_dump R' -> _calc_etag R = _calc_etag R'.
Proof. intros E. unfold _calc_etag, payload. by rewrite E. Qed.

(** ** The handlers *)

Section ServiceProperties.

Context {ScreenRead MovieRead ShowtimeRead : Type}.
Abbreviation Stores := (@Stores ScreenRead MovieRead ShowtimeRead).
Implicit Types (g : Stores) (k j : UUID) (env : Defaults) (t : TheatreCreate).

(** The handlers use the ETag and the identifier text as black boxes. *)
Local Opaque _calc_etag uuid_str.
Local Arguments handle : simpl never.

(** Unfold one request down to the store operations. *)
Ltac run :=
  unfold handle, routes_GET_theatre, serve, create_theatre, get_theatre,
    replace_theatre, delete_theatre, bind, ret, raise, theatres_get,
    theatres_setitem, theatres_delitem, set_header; simpl.

Lemma handle_POST g env t :
  handle (POST_theatres env t) g =
  let new_theatre := TheatreRead_of_create env t in
  (mkResponse 201 [("ETag"%string, _calc_etag new_theatre)] (Model new_theatre),
   with_theatres (<[default_id env := new_theatre]> (theatres g)) g).
Proof. by run. Qed.

Lemma handle_GET_absent g k inm :
  theatres g !! k = None ->
  handle (GET_theatre k inm) g =
  (mkResponse 404 [] (Detail "Theatre not found"), g).
Proof. intros E. run. by rewrite E. Qed.

Lemma handle_GET_fresh g k item :
  theatres g !! k = Some item ->
  handle (GET_theatre k (Some (_calc_etag item))) g =
  (mkResponse 304 [("ETag"%string, _calc_etag item)] Empty, g).
Proof. intros E. run. rewrite E. by rewrite decide_True. Qed.

Lemma handle_GET_stale g k item inm :
  theatres g !! k = Some item ->
  inm <> Some (_calc_etag item) ->
  handle (GET_theatre k inm) g =
  (mkResponse 200 [("ETag"%string, _calc_etag item)] (Model item), g).
Proof. intros E Hne. run. rewrite E. by rewrite decide_False. Qed.

Lemma handle_PUT_absent g env k t im :
  theatres g !! k = None ->
  handle (PUT_theatre env k t im) g =
  (mkResponse 404 [] (Detail "Theatre not found"), g).
Proof. intros E. run. by rewrite E. Qed.

Lemma handle_PUT_missing g env k t existing :
  theatres g !! k = Some existing ->
  handle (PUT_theatre env k t None) g =
  (mkResponse 428 [] (Detail "Precondition Required: missing If-Match"), g).
Proof. intros E. run. by rewrite E. Qed.

Lemma handle_PUT_mismatch g env k t existing m :
  theatres g !! k = Some existing ->
  m <> _calc_etag existing ->
  handle (PUT_theatre env k t (Some m)) g =
  (mkResponse 412 [] (Detail "Precondition Failed: ETag mismatch"), g).
Proof. intros E Hne. run. rewrite E. by rewrite decide_True. Qed.

Lemma handle_PUT_match g env k t existing :
  theatres g !! k = Some existing ->
  handle (PUT_theatre env k t (Some (_calc_etag existing))) g =
  let replacement := TheatreRead_with_id env k t in
  (mkResponse 200 [("ETag"%string, _calc_etag replacement)] (Model replacement),
   with_theatres (<[k := replacement]> (theatres g)) g).
Proof. intros E. run. rewrite E. rewrite decide_False; [done | by intros []]. Qed.

Lemma handle_DELETE_absent g k im :
  theatres g !! k = None ->
  handle (DELETE_theatre k im) g =
  (mkResponse 404 [] (Detail "Theatre not found"), g).
Proof. intros E. run. by rewrite E. Qed.

Lemma handle_DELETE_mismatch g k existing m :
  theatres g !! k = Some existing ->
  m <> _calc_etag existing ->
  handle (DELETE_theatre k (Some m)) g =
  (mkResponse 412 [] (Detail "Precondition Failed: ETag mismatch"), g).
Proof. intros E Hne. run. rewrite E. by rewrite bool_decide_eq_true_2. Qed.

Lemma handle_DELETE_ok g k existing im :
  theatres g !! k = Some existing ->
  im = None \/ im = Some (_calc_etag existing) ->
  handle (DELETE_theatre k im) g =
  (mkResponse 200 []
     (Dict [("status"%string, list_ascii_of_string "deleted");
            ("id"%string, uuid_str k)]),
   with_theatres (delete k (theatres g)) g).
Proof.
  intros E [-> | ->]; run; rewrite E; simpl.
  - by rewrite E.
  - rewrite bool_decide_eq_false_2; [| by intros []]. simpl. by rewrite E.
Qed.

(** Every request falls under one of the cases above. *)
Ltac cases r g :=
  destruct r as [env t | k inm | env k t im | k im];
  [ rewrite handle_POST
  | destruct (theatres g !! k) as [item|] eqn:E;
    [ destruct (decide (inm = Some (_calc_etag item))) as [-> | Hne];
      [ rewrite (handle_GET_fresh g k item E)
      | rewrite (handle_GET_stale g k item inm E Hne) ]
    | rewrite (handle_GET_absent g k inm E) ]
  | destruct (theatres g !! k) as [existing|] eqn:E;
    [ destruct im as [m|];
      [ destruct (decide (m = _calc_etag existing)) as [-> | Hne];
        [ rewrite (handle_PUT_match g env k t existing E)
        | rewrite (handle_PUT_mismatch g env k t existing m E Hne) ]
      | rewrite (handle_PUT_missing g env k t existing E) ]
    | rewrite (handle_PUT_absent g env k t im E) ]
  | destruct (theatres g !! k) as [existing|] eqn:E;
    [ destruct im as [m|];
      [ destruct (decide (m = _calc_etag existing)) as [-> | Hne];
        [ rewrite (handle_DELETE_ok g k existing _ E (or_intror eq_refl))
        | rewrite (handle_DELETE_mismatch g k existing m E Hne) ]
      | rewrite (handle_DELETE_ok g k existing _ E (or_introl eq_refl)) ]
    | rewrite (handle_DELETE_absent g k im E) ] ];
  simpl.

(** C1. PUT on a stored identifier: no If-Match gives 428, an If-Match that
    differs from the current ETag gives 412, the current ETag replaces the
    stored value by the new field values under the same identifier and the
    ETag header is the ETag of the value now stored; PUT on an identifier
    that is not stored gives 404 and stores nothing. *)
Theorem replace_theatre_guard g env k t :
  (forall existing, theatres g !! k = Some existing ->
     (status_code (handle (PUT_theatre env k t None) g).1 = 428
      /\ (handle (PUT_theatre env k t None) g).2 = g)
     /\ (forall m, m <> _calc_etag existing ->
           status_code (handle (PUT_theatre env k t (Some m)) g).1 = 412
           /\ (handle (PUT_theatre env k t (Some m)) g).2 = g)
     /\ (exists stored,
           let '(resp, g') :=
             handle (PUT_theatre env k t (Some (_calc_etag existing))) g in
           status_code resp = 200
           /\ theatres g' !! k = Some stored
           /\ id stored = k
           /\ (name stored, address stored, city stored, state stored,
               postal_code stored, country stored, phone stored,
               email stored, capacity stored)
              = (c_name t, c_address t, c_city t, c_state t,
                 c_postal_code t, c_country t, c_phone t, c_email t,
                 c_capacity t)
           /\ headers resp = [("ETag"%string, _calc_etag stored)]
           /\ body resp = Model stored))
  /\ (theatres g !! k = None ->
      forall im,
        status_code (handle (PUT_theatre env k t im) g).1 = 404
        /\ (handle (PUT_theatre env k t im) g).2 = g
        /\ theatres (handle (PUT_theatre env k t im) g).2 !! k = None).
Proof.
  split.
  - intros existing E. repeat split.
    + by rewrite (handle_PUT_missing g env k t existing E).
    + by rewrite (handle_PUT_missing g env k t existing E).
    + by rewrite (handle_PUT_mismatch g env k t existing m E).
    + by rewrite (handle_PUT_mismatch g env k t existing m E).
    + exists (TheatreRead_with_id env k t).
      rewrite (handle_PUT_match g env k t existing E). simpl.
      by rewrite lookup_insert_eq.
  - intros E im. by rewrite (handle_PUT_absent g env k t im E).
Qed.

(** C3. GET on a stored identifier: an If-None-Match equal to the current
    ETag gives 304 with an empty body and that ETag as header; an absent or
    different If-None-Match gives 200 with the stored resource and the
    current ETag; GET on an identifier that is not stored gives 404. The
    stores are the same afterwards in every case. *)
Theorem get_theatre_conditional g k :
  (forall item, theatres g !! k = Some item ->
     (forall supplied, supplied = _calc_etag item ->
        handle (GET_theatre k (Some supplied)) g =
        (mkResponse 304 [("ETag"%string, supplied)] Empty, g))
     /\ (forall inm, inm <> Some (_calc_etag item) ->
          handle (GET_theatre k inm) g =
          (mkResponse 200 [("ETag"%string, _calc_etag item)] (Model item), g)))
  /\ (theatres g !! k = None ->
      forall inm,
        status_code (handle (GET_theatre k inm) g).1 = 404
        /\ (handle (GET_theatre k inm) g).2 = g).
Proof.
  split.
  - intros item E. split.
    + intros ? ->. by apply handle_GET_fresh.
    + intros inm Hne. by apply handle_GET_stale.
  - intros E inm. by rewrite (handle_GET_absent g k inm E).
Qed.

(** C4. DELETE on a stored identifier: an If-Match that differs from the
    current ETag gives 412 and the resource stays; no If-Match, or the
    current ETag, removes the resource, and a GET that follows gives 404;
    DELETE on an identifier that is not stored gives 404. *)
Theorem delete_theatre_guard g k :
  (forall existing, theatres g !! k = Some existing ->
     (forall m, m <> _calc_etag existing ->
        status_code (handle (DELETE_theatre k (Some m)) g).1 = 412
        /\ theatres (handle (DELETE_theatre k (Some m)) g).2 !! k
           = Some existing)
     /\ (forall im, im = None \/ im = Some (_calc_etag existing) ->
          let '(resp, g') := handle (DELETE_theatre k im) g in
          status_code resp = 200
          /\ theatres g' = delete k (theatres g)
          /\ theatres g' !! k = None
          /\ forall inm, status_code (handle (GET_theatre k inm) g').1 = 404))
  /\ (theatres g !! k = None ->
      forall im, status_code (handle (DELETE_theatre k im) g).1 = 404).
Proof.
  split.
  - intros existing E. split.
    + intros m Hne. by rewrite (handle_DELETE_mismatch g k existing m E Hne).
    + intros im Him. rewrite (handle_DELETE_ok g k existing im E Him). simpl.
      assert (delete k (theatres g) !! k = None) as Hgone
        by apply lookup_delete_eq.
      repeat split; [done |].
      intros inm. by rewrite handle_GET_absent.
  - intros E im. by rewrite (handle_DELETE_absent g k im E).
Qed.

(** C5. A request answered with 404, 412 or 428 leaves the stores exactly
    as they were; the stores change only under a 200 or 201 answer. *)
Theorem error_leaves_stores (r : Request) g :
  (status_code (handle r g).1 = 404
   \/ status_code (handle r g).1 = 412
   \/ status_code (handle r g).1 = 428 ->
   (handle r g).2 = g)
  /\ ((handle r g).2 <> g ->
      status_code (handle r g).1 = 200 \/ status_code (handle r g).1 = 201).
Proof.
  cases r g; split; try done; try (intros [? | [? | ?]]; done); auto.
Qed.

(** C6 (amended). POST needs no precondition header: it stores the new
    theatre under the identifier the model generated and answers 201 with
    the ETag of the value now stored. The identifier is not checked against
    the keys already stored: when it is not among them, the resource goes
    from absent to present, the set of identifiers grows by exactly this one
    and every other theatre stays; when it is among them, the theatre stored
    under it is overwritten and no identifier is added. *)
Theorem create_theatre_transition g env t :
  exists stored,
    let '(resp, g') := handle (POST_theatres env t) g in
    status_code resp = 201
    /\ id stored = default_id env
    /\ theatres g' !! id stored = Some stored
    /\ (name stored, address stored, city stored, state stored,
        postal_code stored, country stored, phone stored,
        email stored, capacity stored)
       = (c_name t, c_address t, c_city t, c_state t,
          c_postal_code t, c_country t, c_phone t, c_email t, c_capacity t)
    /\ headers resp = [("ETag"%string, _calc_etag stored)]
    /\ body resp = Model stored
    /\ (forall j, j <> id stored -> theatres g' !! j = theatres g !! j)
    /\ (theatres g !! id stored = None ->
        (id stored ∉ dom (theatres g))
        /\ dom (theatres g') = {[id stored]} ∪ dom (theatres g)
        /\ size (theatres g') = S (size (theatres g)))
    /\ (forall old, theatres g !! id stored = Some old ->
        dom (theatres g') = dom (theatres g)
        /\ size (theatres g') = size (theatres g)
        /\ (old <> stored -> theatres g' !! id stored <> theatres g !! id stored)).
Proof.
  exists (TheatreRead_of_create env t). rewrite handle_POST.
  cbn [status_code headers body id TheatreRead_of_create theatres with_theatres].
  rewrite lookup_insert_eq. do 6 (split; [reflexivity |]).
  split; [| split].
  - intros j Hj. by rewrite lookup_insert_ne.
  - intros Hnone. split; [by apply not_elem_of_dom |].
    split; [apply dom_insert_L | by apply map_size_insert_None].
  - intros old Hold. split; [| split].
    + rewrite dom_insert_L. apply elem_of_dom_2 in Hold.
      apply subseteq_union_1_L, singleton_subseteq_l, Hold.
    + by apply map_size_insert_Some.
    + rewrite Hold. congruence.
Qed.

(** C10. A request on identifier [k] changes at most the theatre entry at
    [k]; the screens, movies and showtimes stores are never changed. *)
Theorem theatre_operation_frame (r : Request) g j :
  (j <> target r -> theatres (handle r g).2 !! j = theatres g !! j)
  /\ screens (handle r g).2 = screens g
  /\ movies (handle r g).2 = movies g
  /\ showtimes (handle r g).2 = showtimes g.
Proof.
  cases r g; repeat split; try done; intros Hj.
  - by rewrite lookup_insert_ne.
  - by rewrite lookup_insert_ne.
  - by rewrite lookup_delete_ne.
  - by rewrite lookup_delete_ne.
Qed.

(** C7. The ETag is a function of the current field values alone: the
    canonical payload is the same in whatever order the fields are dumped,
    two values with the same dump have the same ETag, and a GET changes
    nothing, so that asking again gives the very same answer. *)
Theorem calc_etag_deterministic :
  (forall (R : TheatreRead) (d : pydict),
     d ≡ₚ exclude_none (model_dump R) ->
     json_dumps d = json_dumps (exclude_none (model_dump R)))
  /\ (forall R R' : TheatreRead,
        model_dump R = model_dump R' -> _calc_etag R = _calc_etag R')
  /\ (forall g k inm,
        (handle (GET_theatre k inm) g).2 = g
        /\ handle (GET_theatre k inm) (handle (GET_theatre k inm) g).2
           = handle (GET_theatre k inm) g).
Proof.
  split; [| split].
  - intros R d Hp. symmetry. apply json_dumps_order; [apply model_dump_NoDup | done].
  - apply calc_etag_of_dump.
  - intros g k inm.
    assert ((handle (GET_theatre k inm) g).2 = g) as Hsame.
    { destruct (theatres g !! k) as [item|] eqn:E;
        [destruct (decide (inm = Some (_calc_etag item))) as [-> | Hne] |].
      - by rewrite (handle_GET_fresh g k item E).
      - by rewrite (handle_GET_stale g k item inm E Hne).
      - by rewrite (handle_GET_absent g k inm E). }
    by rewrite Hsame.
Qed.

(** C9. Every ETag the service sends is a double quote, 64 lowercase hex
    characters and a double quote. *)
Theorem etag_header_format :
  (forall obj : TheatreRead, is_etag_format (_calc_etag obj) = true)
  /\ (forall (r : Request) g (v : string),
        ("ETag"%string, v) ∈ headers (handle r g).1 ->
        is_etag_format v = true).
Proof.
  split; [apply calc_etag_format |].
  intros r g v. cases r g; rewrite ?elem_of_nil; try done;
    rewrite list_elem_of_singleton; intros [= ->]; apply calc_etag_format.
Qed.

End ServiceProperties.


(** ** The canonical payload determines the value *)

Lemma hexval_hexchar (d : Z) : 0 <= d < 16 -> hexval (SHA256.hexchar d) = Some (Z.to_N d).
Proof.
  intros Hd.
  assert (d = 0 \/ d = 1 \/ d = 2 \/ d = 3 \/ d = 4 \/ d = 5 \/ d = 6 \/ d = 7
          \/ d = 8 \/ d = 9 \/ d = 10 \/ d = 11 \/ d = 12 \/ d = 13 \/ d = 14
          \/ d = 15) as Hcases by lia.
  repeat (destruct Hcases as [-> | Hcases]; [reflexivity |]).
  by subst.
Qed.

Lemma hexchar_inj (a b : Z) :
  0 <= a < 16 -> 0 <= b < 16 -> SHA256.hexchar a = SHA256.hexchar b -> a = b.
Proof.
  intros Ha Hb E. apply (f_equal hexval) in E.
  rewrite !hexval_hexchar in E by done. injection E. lia.
Qed.

Lemma sha_hex_digits_S (n : nat) (x : Z) :
  SHA256.hex_digits (S n) x
  = SHA256.hex_digits n (Z.shiftr x 4) ++ [SHA256.hexchar (x mod 16)].
Proof.
  unfold SHA256.hex_digits.
  change (seq 0 (S n)) with (0%nat :: seq 1 n).
  rewrite <- seq_shift. simpl rev. rewrite List.map_app. simpl.
  f_equal.
  rewrite <- List.map_rev, List.map_map. apply List.map_ext. intros i.
  rewrite Z.shiftr_shiftr by lia. do 3 f_equal. lia.
Qed.

Lemma sha_hex_digits_inj (n : nat) (x y : Z) :
  0 <= x < 16 ^ Z.of_nat n -> 0 <= y < 16 ^ Z.of_nat n ->
  SHA256.hex_digits n x = SHA256.hex_digits n y -> x = y.
Proof.
  revert x y. induction n as [|n IH]; intros x y Hx Hy E.
  { simpl in Hx, Hy. lia. }
  rewrite !sha_hex_digits_S in E.
  apply app_inj_tail in E as [E1 E2].
  rewrite Nat2Z.inj_succ, Z.pow_succ_r in Hx, Hy by lia.
  apply hexchar_inj in E2; [| apply Z.mod_pos_bound; lia ..].
  apply IH in E1.
  - rewrite !Z.shiftr_div_pow2 in E1 by lia. change (2 ^ 4) with 16 in E1.
    rewrite (Z.div_mod x 16), (Z.div_mod y 16) by lia. congruence.
  - rewrite Z.shiftr_div_pow2 by lia. change (2 ^ 4) with 16. split.
    + apply Z.div_pos; lia.
    + apply Z.div_lt_upper_bound; lia.
  - rewrite Z.shiftr_div_pow2 by lia. change (2 ^ 4) with 16. split.
    + apply Z.div_pos; lia.
    + apply Z.div_lt_upper_bound; lia.
Qed.

Lemma hex_digits_inj (n : nat) (x y : N) :
  (x < 16 ^ N.of_nat n)%N -> (y < 16 ^ N.of_nat n)%N ->
  hex_digits n x = hex_digits n y -> x = y.
Proof.
  intros Hx Hy E. apply N2Z.inj, (sha_hex_digits_inj n); [| | done].
  - split; [lia |]. rewrite <- nat_N_Z. change 16 with (Z.of_N 16).
    rewrite <- N2Z.inj_pow. lia.
  - split; [lia |]. rewrite <- nat_N_Z. change 16 with (Z.of_N 16).
    rewrite <- N2Z.inj_pow. lia.
Qed.

Lemma decval_decchar (d : N) : (d < 10)%N -> decval (decchar d) = d.
Proof.
  intros Hd. unfold decval, decchar.
  rewrite N_ascii_embedding by lia. lia.
Qed.

Lemma dec_digits_S (n : nat) (x : N) :
  dec_digits (S n) x = dec_digits n (x / 10)%N ++ [decchar (x mod 10)%N].
Proof.
  unfold dec_digits.
  change (seq 0 (S n)) with (0%nat :: seq 1 n).
  rewrite <- seq_shift. simpl rev. rewrite List.map_app. simpl.
  f_equal.
  - rewrite <- List.map_rev, List.map_map. apply List.map_ext. intros i.
    rewrite Nat2N.inj_succ, N.pow_succ_r', N.Div0.div_div. done.
  - by rewrite N.div_1_r.
Qed.

Lemma dec_digits_length (n : nat) (x : N) : length (dec_digits n x) = n.
Proof.
  unfold dec_digits. by rewrite List.length_map, List.length_rev, List.length_seq.
Qed.

Lemma dec_digits_inj (n : nat) (x y : N) :
  (x < 10 ^ N.of_nat n)%N -> (y < 10 ^ N.of_nat n)%N ->
  dec_digits n x = dec_digits n y -> x = y.
Proof.
  revert x y. induction n as [|n IH]; intros x y Hx Hy E.
  { simpl in Hx, Hy. lia. }
  rewrite !dec_digits_S in E.
  apply app_inj_tail in E as [E1 E2].
  rewrite Nat2N.inj_succ, N.pow_succ_r' in Hx, Hy.
  apply (f_equal decval) in E2.
  rewrite !decval_decchar in E2 by (apply N.mod_lt; lia).
  apply IH in E1.
  - rewrite (N.div_mod x 10), (N.div_mod y 10) by lia. congruence.
  - apply N.Div0.div_lt_upper_bound; lia.
  - apply N.Div0.div_lt_upper_bound; lia.
Qed.

Lemma hex_digits_N_length (n : nat) (x : N) : length (hex_digits n x) = n.
Proof. apply hex_digits_length. Qed.

Lemma undash_uuid_str (u : UUID) : undash (uuid_str u) = hex_digits 32 u.
Proof.
  unfold uuid_str. generalize (hex_digits_N_length 32 u).
  generalize (hex_digits 32 u). intros x Hx.
  do 32 (destruct x as [|? x]; [discriminate Hx |]).
  destruct x; [reflexivity | discriminate Hx].
Qed.

Lemma uuid_str_inj (u1 u2 : UUID) :
  valid_uuid u1 = true -> valid_uuid u2 = true ->
  uuid_str u1 = uuid_str u2 -> u1 = u2.
Proof.
  unfold valid_uuid. intros H1%N.ltb_lt H2%N.ltb_lt E.
  apply (f_equal undash) in E. rewrite !undash_uuid_str in E.
  apply (hex_digits_inj 32); [| | done].
  - change (16 ^ N.of_nat 32)%N with (2 ^ 128)%N. done.
  - change (16 ^ N.of_nat 32)%N with (2 ^ 128)%N. done.
Qed.

Lemma cons_eq_tail {A} (a b : A) (l1 l2 : list A) : a :: l1 = b :: l2 -> l1 = l2.
Proof. by intros [= _ ?]. Qed.

Lemma isoformat_inj (d1 d2 : datetime) :
  valid_datetime d1 = true -> valid_datetime d2 = true ->
  isoformat d1 = isoformat d2 -> d1 = d2.
Proof.
  unfold valid_datetime. rewrite !andb_true_iff, !N.leb_le.
  intros V1 V2. destruct d1 as [y1 mo1 da1 h1 mi1 s1 us1].
  destruct d2 as [y2 mo2 da2 h2 mi2 s2 us2]. simpl in V1, V2.
  unfold isoformat. cbn [year month day hour minute second microsecond].
  intros E.
  apply app_inj_1 in E as [Ey E]; [| by rewrite !dec_digits_length].
  apply cons_eq_tail in E.
  apply app_inj_1 in E as [Emo E]; [| by rewrite !dec_digits_length].
  apply cons_eq_tail in E.
  apply app_inj_1 in E as [Eda E]; [| by rewrite !dec_digits_length].
  apply cons_eq_tail in E.
  apply app_inj_1 in E as [Eh E]; [| by rewrite !dec_digits_length].
  apply cons_eq_tail in E.
  apply app_inj_1 in E as [Emi E]; [| by rewrite !dec_digits_length].
  apply cons_eq_tail in E.
  apply app_inj_1 in E as [Es E]; [| by rewrite !dec_digits_length].
  apply (dec_digits_inj 4) in Ey; [| change (10 ^ N.of_nat 4)%N with 10000%N; change (10 ^ N.of_nat 2)%N with 100%N; change (10 ^ N.of_nat 6)%N with 1000000%N; lia ..].
  apply (dec_digits_inj 2) in Emo; [| change (10 ^ N.of_nat 4)%N with 10000%N; change (10 ^ N.of_nat 2)%N with 100%N; change (10 ^ N.of_nat 6)%N with 1000000%N; lia ..].
  apply (dec_digits_inj 2) in Eda; [| change (10 ^ N.of_nat 4)%N with 10000%N; change (10 ^ N.of_nat 2)%N with 100%N; change (10 ^ N.of_nat 6)%N with 1000000%N; lia ..].
  apply (dec_digits_inj 2) in Eh; [| change (10 ^ N.of_nat 4)%N with 10000%N; change (10 ^ N.of_nat 2)%N with 100%N; change (10 ^ N.of_nat 6)%N with 1000000%N; lia ..].
  apply (dec_digits_inj 2) in Emi; [| change (10 ^ N.of_nat 4)%N with 10000%N; change (10 ^ N.of_nat 2)%N with 100%N; change (10 ^ N.of_nat 6)%N with 1000000%N; lia ..].
  apply (dec_digits_inj 2) in Es; [| change (10 ^ N.of_nat 4)%N with 10000%N; change (10 ^ N.of_nat 2)%N with 100%N; change (10 ^ N.of_nat 6)%N with 1000000%N; lia ..].
  subst. f_equal.
  destruct (N.eqb_spec us1 0), (N.eqb_spec us2 0); try discriminate E.
  - congruence.
  - apply cons_eq_tail in E. apply (dec_digits_inj 6) in E; [done | change (10 ^ N.of_nat 6)%N with 1000000%N; lia ..].
Qed.

Lemma text_to_pystr_inj (t1 t2 : list ascii) :
  text_to_pystr t1 = text_to_pystr t2 -> t1 = t2.
Proof.
  revert t2. induction t1 as [|c1 t1 IH]; intros [|c2 t2]; try done.
  unfold text_to_pystr. simpl. intros [= Ec Et]. f_equal.
  - rewrite <- (ascii_N_embedding c1), <- (ascii_N_embedding c2). by rewrite Ec.
  - by apply IH.
Qed.

Lemma read_hex4_digits (c : N) (r : list ascii) :
  (c < 65536)%N -> read_hex4 (hex_digits 4 c ++ r) = Some (c, r).
Proof.
  intros Hc. unfold hex_digits, SHA256.hex_digits.
  cbn [seq rev List.map app read_hex4].
  rewrite !hexval_hexchar by (apply Z.mod_pos_bound; lia).
  f_equal. f_equal.
  rewrite !Z.shiftr_div_pow2 by lia.
  change (2 ^ (4 * Z.of_nat 3)) with 4096.
  change (2 ^ (4 * Z.of_nat 2)) with 256.
  change (2 ^ (4 * Z.of_nat 1)) with 16.
  change (2 ^ (4 * Z.of_nat 0)) with 1.
  rewrite Z.div_1_r. zify. Z.div_mod_to_equations. lia.
Qed.

Lemma below_forallb (P : N -> bool) (n : nat) :
  forallb P (List.map N.of_nat (seq 0 n)) = true ->
  forall x, (x < N.of_nat n)%N -> P x = true.
Proof.
  intros H x Hx. rewrite List.forallb_forall in H. apply H.
  rewrite <- (N2Nat.id x). apply List.in_map, List.in_seq. lia.
Qed.

Lemma lor_surrogate (x : N) :
  (x < 1024)%N ->
  N.lor 55296 x = (55296 + x)%N /\ N.lor 56320 x = (56320 + x)%N.
Proof.
  intros Hx.
  pose proof (below_forallb
    (fun x => (N.lor 55296 x =? 55296 + x)%N && (N.lor 56320 x =? 56320 + x)%N)
    1024 ltac:(vm_compute; reflexivity) x Hx) as H.
  apply andb_true_iff in H as [H1 H2]. by rewrite !N.eqb_eq in H1, H2.
Qed.

Lemma ascii_of_N_eqb (c : N) (a : ascii) :
  (c < 256)%N -> c <> N_of_ascii a -> Ascii.eqb (ascii_of_N c) a = false.
Proof.
  intros Hc Hne. apply Ascii.eqb_neq. intros E. apply Hne.
  by rewrite <- E, N_ascii_embedding.
Qed.

Lemma unescape_escape (c : N) (r : list ascii) :
  valid_char c = true -> unescape_step (escape_char c ++ r) = Some (c, r).
Proof.
  unfold valid_char, escape_char. intros Hv.
  destruct (N.eqb_spec c 34) as [-> | H34]; [reflexivity |].
  destruct (N.eqb_spec c 92) as [-> | H92]; [reflexivity |].
  destruct (N.eqb_spec c 10) as [-> | H10]; [reflexivity |].
  destruct (N.eqb_spec c 13) as [-> | H13]; [reflexivity |].
  destruct (N.eqb_spec c 9) as [-> | H9]; [reflexivity |].
  destruct (N.eqb_spec c 8) as [-> | H8]; [reflexivity |].
  destruct (N.eqb_spec c 12) as [-> | H12]; [reflexivity |].
  destruct ((32 <=? c) && (c <=? 126))%N eqn:Hprint.
  { apply andb_true_iff in Hprint as [Hlo%N.leb_le Hhi%N.leb_le].
    cbn [app unescape_step].
    rewrite !ascii_of_N_eqb by (done || lia).
    by rewrite N_ascii_embedding by lia. }
  destruct (N.ltb_spec c 65536) as [Hbmp | Hastral].
  - cbn [app unescape_step]. change (Ascii.eqb BACKSLASH DQUOTE) with false.
    change (Ascii.eqb BACKSLASH BACKSLASH) with true. cbn match.
    cbn [Ascii.eqb Bool.eqb DQUOTE BACKSLASH].
    rewrite read_hex4_digits by done.
    destruct ((55296 <=? c) && (c <? 56320))%N eqn:Hsur; [| done].
    apply andb_true_iff in Hsur as [?%N.leb_le ?%N.ltb_lt].
    apply orb_true_iff in Hv as [?%N.ltb_lt | [?%N.ltb_lt _]%andb_true_iff]; lia.
  - apply orb_true_iff in Hv as [?%N.ltb_lt | [_ Hmax%N.ltb_lt]%andb_true_iff];
      [lia |].
    set (n := (c - 65536)%N).
    assert (c = 65536 + n)%N as Hc by (unfold n; lia).
    clearbody n.
    assert (N.land (N.shiftr n 10) 1023 = n / 1024)%N as ->.
    { change 1023%N with (N.ones 10). rewrite N.land_ones, N.shiftr_div_pow2.
      change (2 ^ 10)%N with 1024%N. apply N.mod_small.
      apply N.Div0.div_lt_upper_bound. lia. }
    assert (N.land n 1023 = n mod 1024)%N as ->.
    { change 1023%N with (N.ones 10). by rewrite N.land_ones. }
    destruct (lor_surrogate (n / 1024)) as [-> _].
    { apply N.Div0.div_lt_upper_bound. lia. }
    destruct (lor_surrogate (n mod 1024)) as [_ ->].
    { apply N.mod_lt. lia. }
    assert (n / 1024 < 1024)%N by (apply N.Div0.div_lt_upper_bound; lia).
    assert (n mod 1024 < 1024)%N by (apply N.mod_lt; lia).
    cbn [app unescape_step]. change (Ascii.eqb BACKSLASH DQUOTE) with false.
    change (Ascii.eqb BACKSLASH BACKSLASH) with true. cbn match.
    cbn [Ascii.eqb Bool.eqb DQUOTE BACKSLASH].
    rewrite <- app_assoc. rewrite read_hex4_digits by lia.
    destruct ((55296 <=? 55296 + n / 1024) && (55296 + n / 1024 <? 56320))%N
      eqn:Hsur.
    + cbn [app]. rewrite read_hex4_digits by lia. f_equal. f_equal.
      pose proof (N.div_mod n 1024 ltac:(lia)) as Hdm. clear Hsur.
      remember (n / 1024)%N as q. remember (n mod 1024)%N as m. lia.
    + remember (n / 1024)%N as q.
      apply andb_false_iff in Hsur as [?%N.leb_gt | ?%N.ltb_ge]; lia.
Qed.

Lemma escaped_inj (s1 s2 : pystr) (r1 r2 : list ascii) :
  valid_str s1 = true -> valid_str s2 = true ->
  flat_map escape_char s1 ++ DQUOTE :: r1 = flat_map escape_char s2 ++ DQUOTE :: r2 ->
  s1 = s2 /\ r1 = r2.
Proof.
  revert s2. induction s1 as [|c1 s1 IH]; intros [|c2 s2]; simpl.
  - by intros _ _ [= ->].
  - intros _ [Hc _]%andb_true_iff E. apply (f_equal unescape_step) in E.
    rewrite <- app_assoc, unescape_escape in E by done. discriminate E.
  - intros [Hc _]%andb_true_iff _ E. apply (f_equal unescape_step) in E.
    rewrite <- app_assoc, unescape_escape in E by done. discriminate E.
  - intros [Hc1 Hs1]%andb_true_iff [Hc2 Hs2]%andb_true_iff E.
    apply (f_equal unescape_step) in E.
    rewrite <- !app_assoc, !unescape_escape in E by done.
    injection E as -> E. destruct (IH s2 Hs1 Hs2 E) as [-> ->]. done.
Qed.

Lemma encode_str_inj (s1 s2 : pystr) (r1 r2 : list ascii) :
  valid_str s1 = true -> valid_str s2 = true ->
  py_encode_basestring_ascii s1 ++ r1 = py_encode_basestring_ascii s2 ++ r2 ->
  s1 = s2 /\ r1 = r2.
Proof.
  intros H1 H2. unfold py_encode_basestring_ascii.
  rewrite <- !app_comm_cons, <- !app_assoc. simpl.
  intros E%cons_eq_tail. by apply escaped_inj.
Qed.

Lemma read_uint_end (r : list ascii) : ends_number r -> read_uint r = (Decimal.Nil, r).
Proof. intros [r' [-> | ->]]; simpl; by destruct (read_uint r'). Qed.

Lemma read_uint_digits (d : Decimal.uint) (r : list ascii) :
  ends_number r ->
  read_uint (list_ascii_of_string (NilEmpty.string_of_uint d) ++ r) = (d, r).
Proof.
  intros Hr. induction d as [|d IH|d IH|d IH|d IH|d IH|d IH|d IH|d IH|d IH|d IH];
    [by apply read_uint_end | ..];
    cbn [NilEmpty.string_of_uint list_ascii_of_string app read_uint];
    by rewrite IH.
Qed.

Lemma string_of_uint_nonnil (d : Decimal.uint) :
  d <> Decimal.Nil -> NilZero.string_of_uint d = NilEmpty.string_of_uint d.
Proof. by destruct d. Qed.

Lemma read_int_pos (d : Decimal.uint) (r : list ascii) :
  d <> Decimal.Nil -> ends_number r ->
  read_int (list_ascii_of_string (NilEmpty.string_of_uint d) ++ r)
  = (Decimal.Pos d, r).
Proof.
  intros Hd Hr. pose proof (read_uint_digits d r Hr) as H.
  destruct d; [done | ..];
    cbn [NilEmpty.string_of_uint list_ascii_of_string app] in *;
    unfold read_int; change (Ascii.eqb _ "-") with false; cbv iota;
    by rewrite H.
Qed.

Lemma read_int_repr (z : Z) (r : list ascii) :
  ends_number r -> read_int (int_repr z ++ r) = (Z.to_int z, r).
Proof.
  intros Hr. unfold int_repr. destruct z as [|p|p]; cbn [Z.to_int].
  - apply (read_int_pos (Decimal.D0 Decimal.Nil)); done.
  - pose proof (Unsigned.to_uint_nonnil p) as Hnil.
    unfold NilZero.string_of_int. rewrite string_of_uint_nonnil by done.
    by apply read_int_pos.
  - pose proof (Unsigned.to_uint_nonnil p) as Hnil.
    unfold NilZero.string_of_int. rewrite string_of_uint_nonnil by done.
    cbn [list_ascii_of_string app read_int].
    change (Ascii.eqb "-" "-") with true. cbv iota.
    by rewrite read_uint_digits.
Qed.

Lemma int_repr_inj (z1 z2 : Z) (r1 r2 : list ascii) :
  ends_number r1 -> ends_number r2 ->
  int_repr z1 ++ r1 = int_repr z2 ++ r2 -> z1 = z2 /\ r1 = r2.
Proof.
  intros H1 H2 E. apply (f_equal read_int) in E.
  rewrite !read_int_repr in E by done. injection E as E ->.
  split; [by apply DecimalZ.to_int_inj | done].
Qed.

Lemma int_repr_head (z : Z) : exists c t, int_repr z = c :: t /\ c <> DQUOTE.
Proof.
  unfold int_repr. destruct z as [|p|p]; cbn [Z.to_int].
  - by eexists _, _.
  - pose proof (Unsigned.to_uint_nonnil p) as Hnil.
    unfold NilZero.string_of_int. rewrite string_of_uint_nonnil by done.
    destruct (Pos.to_uint p); [done | ..]; by eexists _, _.
  - by eexists _, _.
Qed.

Lemma valid_text (t : list ascii) : valid_str (text_to_pystr t) = true.
Proof.
  unfold valid_str, text_to_pystr. apply List.forallb_forall.
  intros c [a [<- _]]%List.in_map_iff. unfold valid_char.
  pose proof (N_ascii_bounded a). apply orb_true_iff. left. apply N.ltb_lt. lia.
Qed.

Lemma encode_value_normal (v : pyvalue) :
  valid_value v = true ->
  match normal v with
  | inl s => encode_value v = py_encode_basestring_ascii s /\ valid_str s = true
  | inr z => encode_value v = int_repr z
  end.
Proof.
  destruct v as [s | z | u | d]; cbn [normal encode_value default from_option valid_value].
  - by split.
  - reflexivity.
  - intros _. split; [reflexivity | apply valid_text].
  - intros _. split; [reflexivity | apply valid_text].
Qed.

Lemma encode_str_head (s : pystr) (r : list ascii) :
  py_encode_basestring_ascii s ++ r
  = DQUOTE :: flat_map escape_char s ++ DQUOTE :: r.
Proof.
  unfold py_encode_basestring_ascii.
  by rewrite <- app_comm_cons, <- app_assoc.
Qed.

Lemma encode_value_inj (v1 v2 : pyvalue) (r1 r2 : list ascii) :
  valid_value v1 = true -> valid_value v2 = true ->
  ends_number r1 -> ends_number r2 ->
  encode_value v1 ++ r1 = encode_value v2 ++ r2 ->
  normal v1 = normal v2 /\ r1 = r2.
Proof.
  intros V1 V2 H1 H2.
  pose proof (encode_value_normal v1 V1) as N1.
  pose proof (encode_value_normal v2 V2) as N2.
  destruct (normal v1) as [s1 | z1], (normal v2) as [s2 | z2].
  - destruct N1 as [-> ?], N2 as [-> ?]. intros E.
    destruct (encode_str_inj s1 s2 r1 r2) as [-> ->]; done.
  - destruct N1 as [-> ?]. rewrite N2, encode_str_head.
    destruct (int_repr_head z2) as (c & t & -> & Hc).
    rewrite <- app_comm_cons. intros E. destruct Hc. congruence.
  - destruct N2 as [-> ?]. rewrite N1, encode_str_head.
    destruct (int_repr_head z1) as (c & t & -> & Hc).
    rewrite <- app_comm_cons. intros E. destruct Hc. congruence.
  - rewrite N1, N2. intros E.
    destruct (int_repr_inj z1 z2 r1 r2) as [-> ->]; done.
Qed.

Lemma encode_item_inj (kv1 kv2 : pystr * pyvalue) (r1 r2 : list ascii) :
  valid_item kv1 = true -> valid_item kv2 = true ->
  ends_number r1 -> ends_number r2 ->
  encode_item kv1 ++ r1 = encode_item kv2 ++ r2 ->
  normal_item kv1 = normal_item kv2 /\ r1 = r2.
Proof.
  unfold valid_item, encode_item, normal_item.
  intros [K1 V1]%andb_true_iff [K2 V2]%andb_true_iff H1 H2.
  rewrite <- !app_assoc. intros E.
  apply encode_str_inj in E as [-> E]; [| done ..].
  apply cons_eq_tail in E.
  apply encode_value_inj in E as [-> ->]; done.
Qed.

Lemma join_items_cons (x : list ascii) (l : list (list ascii)) :
  join_items (x :: l)
  = x ++ match l with [] => [] | _ :: _ => ","%char :: join_items l end.
Proof. destruct l; simpl; [by rewrite app_nil_r | done]. Qed.

Lemma items_inj (l1 l2 : pydict) (r1 r2 : list ascii) :
  Forall (fun kv => valid_item kv = true) l1 ->
  Forall (fun kv => valid_item kv = true) l2 ->
  join_items (List.map encode_item l1) ++ "}"%char :: r1
  = join_items (List.map encode_item l2) ++ "}"%char :: r2 ->
  List.map normal_item l1 = List.map normal_item l2.
Proof.
  intros V1. revert l2. induction V1 as [|x1 l1 Vx1 V1 IH]; intros l2 V2.
  { destruct V2 as [|x2 l2 _ _]; [done |].
    cbn [List.map]. rewrite join_items_cons. unfold encode_item at 1.
    rewrite <- !app_assoc, encode_str_head. cbn [join_items app].
    intros E. discriminate E. }
  destruct V2 as [|x2 l2 Vx2 V2].
  { cbn [List.map]. rewrite join_items_cons. unfold encode_item at 1.
    rewrite <- !app_assoc, encode_str_head. cbn [join_items app].
    intros E. discriminate E. }
  cbn [List.map]. rewrite !join_items_cons, <- !app_assoc. intros E.
  apply encode_item_inj in E as [-> E]; [| done | done | ..].
  - f_equal. apply IH; [done |].
    destruct l1 as [|y1 l1], l2 as [|y2 l2]; cbn [List.map app] in E |- *;
      try discriminate E; [done |].
    by apply cons_eq_tail in E.
  - destruct (List.map encode_item l1); eexists; [right | left]; done.
  - destruct (List.map encode_item l2); eexists; [right | left]; done.
Qed.

Lemma json_dumps_inj (d1 d2 : pydict) :
  Forall (fun kv => valid_item kv = true) d1 ->
  Forall (fun kv => valid_item kv = true) d2 ->
  json_dumps d1 = json_dumps d2 ->
  normal_item <$> d1 ≡ₚ normal_item <$> d2.
Proof.
  intros V1 V2 E. unfold json_dumps in E. apply cons_eq_tail in E.
  apply items_inj in E.
  - rewrite <- (merge_sort_Permutation key_le d1).
    rewrite <- (merge_sort_Permutation key_le d2).
    assert (normal_item <$> merge_sort key_le d1
            = normal_item <$> merge_sort key_le d2) as -> by exact E.
    done.
  - by rewrite merge_sort_Permutation.
  - by rewrite merge_sort_Permutation.
Qed.

Lemma exclude_none_elem (d : list (pystr * option pyvalue)) k v :
  (k, v) ∈ exclude_none d <-> (k, Some v) ∈ d.
Proof.
  unfold exclude_none. rewrite list_elem_of_omap. split.
  - intros [[k' [v'|]] [Hin [= -> ->]]]. done.
  - intros Hin. by exists (k, Some v).
Qed.

Lemma exclude_none_valid (d : list (pystr * option pyvalue)) :
  Forall (fun kv => valid_str kv.1 = true /\ valid_opt valid_value kv.2 = true) d ->
  Forall (fun kv => valid_item kv = true) (exclude_none d).
Proof.
  rewrite !Forall_forall. intros H [k v] Hin%exclude_none_elem.
  destruct (H _ Hin) as [Hk Hv]. unfold valid_item. simpl in *.
  by rewrite Hk, Hv.
Qed.

Lemma valid_key (k : string) : valid_str (pystr_of_string k) = true.
Proof. apply (valid_text (list_ascii_of_string k)). Qed.

Lemma model_dump_valid (t : TheatreRead) :
  valid_theatre t = true ->
  Forall (fun kv => valid_item kv = true) (exclude_none (model_dump t)).
Proof.
  unfold valid_theatre. rewrite !andb_true_iff.
  intros [[[[[[[[[[? ?] ?] ?] ?] ?] ?] ?] ?] ?] ?].
  apply exclude_none_valid. unfold model_dump, field.
  repeat (apply Forall_cons; split; [split; [apply valid_key |] |]);
    [.. | apply Forall_nil]; cbn [snd];
    try match goal with |- context [_ <$> ?o] => by destruct o end.
  all: done.
Qed.

(** *** From equal payloads to equal theatres *)

Lemma normal_dump_elem (t : TheatreRead) k n :
  (k, n) ∈ normal_dump t <->
  exists v, (k, Some v) ∈ model_dump t /\ n = normal v.
Proof.
  unfold normal_dump. rewrite list_elem_of_fmap. split.
  - intros [[k' v] [[= -> ->] Hin%exclude_none_elem]]. by exists v.
  - intros [v [Hin ->]]. exists (k, v). by rewrite exclude_none_elem.
Qed.

Lemma model_dump_keys_NoDup (t : TheatreRead) : NoDup (model_dump t).*1.
Proof. rewrite model_dump_keys. apply (bool_decide_unpack _). by vm_compute. Qed.

Lemma field_agree (t1 t2 : TheatreRead) (k : pystr) (f1 f2 : option pyvalue) :
  normal_dump t1 ≡ₚ normal_dump t2 ->
  (k, f1) ∈ model_dump t1 -> (k, f2) ∈ model_dump t2 ->
  normal <$> f1 = normal <$> f2.
Proof.
  intros Hp H1 H2.
  assert (forall ta tb fa fb,
    normal_dump ta ≡ₚ normal_dump tb ->
    (k, fa) ∈ model_dump ta -> (k, fb) ∈ model_dump tb ->
    forall v, fa = Some v -> normal <$> fb = Some (normal v)) as Hone.
  { intros ta tb fa fb Hab Ha Hb v ->.
    assert ((k, normal v) ∈ normal_dump tb) as Hin.
    { rewrite <- Hab. apply normal_dump_elem. by exists v. }
    apply normal_dump_elem in Hin as [v' [Hin ->]].
    by rewrite (NoDup_keys_functional _ _ _ _ (model_dump_keys_NoDup tb) Hb Hin). }
  destruct f1 as [v1|] eqn:E1.
  - symmetry. by eapply (Hone t1 t2).
  - destruct f2 as [v2|] eqn:E2; [| done].
    by pose proof (Hone t2 t1 _ _ (symmetry Hp) H2 H1 v2 eq_refl).
Qed.

Ltac in_dump :=
  unfold model_dump, field;
  repeat first [apply list_elem_of_here | apply list_elem_of_further].

Lemma payload_text_inj (t1 t2 : TheatreRead) :
  valid_theatre t1 = true -> valid_theatre t2 = true ->
  json_dumps (exclude_none (model_dump t1))
  = json_dumps (exclude_none (model_dump t2)) ->
  t1 = t2.
Proof.
  intros V1 V2 E.
  apply json_dumps_inj in E; [| by apply model_dump_valid ..].
  fold (normal_dump t1) in E. fold (normal_dump t2) in E.
  pose proof (fun k f1 f2 => field_agree t1 t2 (pystr_of_string k) f1 f2 E) as Hf.
  unfold valid_theatre in V1, V2. rewrite !andb_true_iff in V1, V2.
  destruct V1 as [[[[[[[[[[U1 _] _] _] _] _] _] _] _] C1] M1].
  destruct V2 as [[[[[[[[[[U2 _] _] _] _] _] _] _] _] C2] M2].
  pose proof (Hf "id"%string _ _ ltac:(in_dump) ltac:(in_dump)) as Hid.
  pose proof (Hf "name"%string _ _ ltac:(in_dump) ltac:(in_dump)) as Hname.
  pose proof (Hf "address"%string _ _ ltac:(in_dump) ltac:(in_dump)) as Haddress.
  pose proof (Hf "city"%string _ _ ltac:(in_dump) ltac:(in_dump)) as Hcity.
  pose proof (Hf "state"%string _ _ ltac:(in_dump) ltac:(in_dump)) as Hstate.
  pose proof (Hf "postal_code"%string _ _ ltac:(in_dump) ltac:(in_dump)) as Hpostal.
  pose proof (Hf "country"%string _ _ ltac:(in_dump) ltac:(in_dump)) as Hcountry.
  pose proof (Hf "phone"%string _ _ ltac:(in_dump) ltac:(in_dump)) as Hphone.
  pose proof (Hf "email"%string _ _ ltac:(in_dump) ltac:(in_dump)) as Hemail.
  pose proof (Hf "capacity"%string _ _ ltac:(in_dump) ltac:(in_dump)) as Hcapacity.
  pose proof (Hf "created_at"%string _ _ ltac:(in_dump) ltac:(in_dump)) as Hcreated.
  pose proof (Hf "updated_at"%string _ _ ltac:(in_dump) ltac:(in_dump)) as Hupdated.
  clear Hf E.
  destruct t1 as [i1 n1 a1 c1 s1 p1 co1 ph1 e1 ca1 cr1 up1].
  destruct t2 as [i2 n2 a2 c2 s2 p2 co2 ph2 e2 ca2 cr2 up2].
  cbn [id name address city state postal_code country phone email capacity
       created_at updated_at] in *.
  assert (i1 = i2) as ->.
  { apply uuid_str_inj; [done .. |]. apply text_to_pystr_inj.
    cbn [fmap option_fmap option_map normal] in Hid. congruence. }
  assert (forall o1 o2 : option pystr,
    normal <$> (PyStr <$> o1) = normal <$> (PyStr <$> o2) -> o1 = o2) as Hstr.
  { intros [x|] [y|]; cbn [fmap option_fmap option_map normal]; congruence. }
  assert (forall o1 o2 : option Z,
    normal <$> (PyInt <$> o1) = normal <$> (PyInt <$> o2) -> o1 = o2) as Hint.
  { intros [x|] [y|]; cbn [fmap option_fmap option_map normal]; congruence. }
  assert (forall o1 o2 : option datetime,
    valid_opt valid_datetime o1 = true -> valid_opt valid_datetime o2 = true ->
    normal <$> (PyDatetime <$> o1) = normal <$> (PyDatetime <$> o2) -> o1 = o2)
    as Hdt.
  { intros [x|] [y|] Vx Vy; cbn [fmap option_fmap option_map normal];
      intros Exy; try discriminate Exy; [| done].
    f_equal. apply isoformat_inj; [done .. |].
    apply (app_inv_tail ["Z"%char]), text_to_pystr_inj. congruence. }
  f_equal; auto.
Qed.

Lemma utf8_step_char (c : ascii) (t : list ascii) :
  utf8_step (encode_utf8 (c :: t)) = Some (c, encode_utf8 t).
Proof.
  unfold encode_utf8. cbn [flat_map].
  destruct c as [[] [] [] [] [] [] [] []]; reflexivity.
Qed.

Lemma encode_utf8_inj (t1 t2 : list ascii) :
  encode_utf8 t1 = encode_utf8 t2 -> t1 = t2.
Proof.
  revert t2. induction t1 as [|c1 t1 IH]; intros [|c2 t2] E.
  - done.
  - apply (f_equal utf8_step) in E. by rewrite utf8_step_char in E.
  - apply (f_equal utf8_step) in E. by rewrite utf8_step_char in E.
  - apply (f_equal utf8_step) in E. rewrite !utf8_step_char in E.
    injection E as -> E. f_equal. by apply IH.
Qed.

Lemma payload_inj (t1 t2 : TheatreRead) :
  valid_theatre t1 = true -> valid_theatre t2 = true ->
  payload t1 = payload t2 -> t1 = t2.
Proof.
  intros V1 V2 E. by apply payload_text_inj, encode_utf8_inj.
Qed.

(** *** More values than digests *)

Lemma bounded_search (P : N -> Prop) (dec : forall i, {P i} + {~ P i}) (n : N) :
  (exists i, (i <= n)%N /\ P i) \/ (forall i, (i <= n)%N -> ~ P i).
Proof.
  induction n as [|n IH] using N.peano_ind.
  - destruct (dec 0%N) as [H0 | H0].
    + left. exists 0%N. split; [lia | done].
    + right. intros i Hi. by replace i with 0%N by lia.
  - destruct IH as [(i & Hi & HP) | Hnone].
    + left. exists i. split; [lia | done].
    + destruct (dec (N.succ n)) as [Hs | Hs].
      * left. exists (N.succ n). split; [lia | done].
      * right. intros i Hi. destruct (N.eq_dec i (N.succ n)) as [-> | Hne];
          [done | apply Hnone; lia].
Qed.

Lemma pigeonhole (n : N) (f : N -> N) :
  (forall i, (i <= n)%N -> (f i < n)%N) ->
  exists i j, (i < j)%N /\ (j <= n)%N /\ f i = f j.
Proof.
  revert f. induction n as [|n IH] using N.peano_ind; intros f Hf.
  - specialize (Hf 0%N). lia.
  - set (v := f (N.succ n)).
    destruct (bounded_search (fun i => f i = v) (fun i => N.eq_dec (f i) v) n)
      as [(i & Hi & Hv) | Hnone].
    + exists i, (N.succ n). repeat split; [lia | lia | done].
    + pose (g := fun i => if (f i <? v)%N then f i else (f i - 1)%N).
      assert (v < N.succ n)%N as Hvn by (apply Hf; lia).
      destruct (IH g) as (i & j & Hij & Hj & Hg).
      { intros i Hi. unfold g. pose proof (Hf i ltac:(lia)).
        pose proof (Hnone i Hi). destruct (N.ltb_spec (f i) v); lia. }
      exists i, j. repeat split; [lia | lia |].
      pose proof (Hnone i ltac:(lia)). pose proof (Hnone j ltac:(lia)).
      unfold g in Hg.
      destruct (N.ltb_spec (f i) v), (N.ltb_spec (f j) v); lia.
Qed.

Lemma add32_bounded (x y : Z) : 0 <= SHA256.add32 x y < 4294967296.
Proof. unfold SHA256.add32, SHA256.wrap. apply Z.mod_pos_bound. lia. Qed.

Lemma compress_bounded (h : SHA256.state) (b : list Z) :
  word_bounded (SHA256.compress h b).
Proof.
  unfold word_bounded, SHA256.compress, SHA256.state_words.
  cbn [SHA256.sa SHA256.sb SHA256.sc SHA256.sd SHA256.se SHA256.sf SHA256.sg
       SHA256.sh].
  repeat (apply List.Forall_cons; [apply add32_bounded |]). apply List.Forall_nil.
Qed.

Lemma sha256_bounded (msg : list Z) : word_bounded (SHA256.sha256 msg).
Proof.
  unfold SHA256.sha256.
  generalize (SHA256.blocks (length (SHA256.words (SHA256.pad msg)))
                (SHA256.words (SHA256.pad msg))).
  intros bs.
  assert (word_bounded SHA256.H0) as HH0.
  { unfold word_bounded, SHA256.state_words, SHA256.H0.
    cbn [SHA256.sa SHA256.sb SHA256.sc SHA256.sd SHA256.se SHA256.sf
         SHA256.sg SHA256.sh].
    repeat (apply List.Forall_cons; [lia |]). apply List.Forall_nil. }
  revert HH0. generalize SHA256.H0.
  induction bs as [|b bs IH]; intros h Hh; [done |].
  cbn [fold_left]. apply IH, compress_bounded.
Qed.

Lemma digest_value_bounded (s : SHA256.state) :
  word_bounded s -> 0 <= digest_value s < 2 ^ 256.
Proof.
  destruct s as [a b c d e f g h]. unfold word_bounded, digest_value, SHA256.state_words.
  cbn [ SHA256.sa SHA256.sb SHA256.sc SHA256.sd SHA256.se
       SHA256.sf SHA256.sg SHA256.sh fold_left].
  rewrite !Forall_cons. intros (? & ? & ? & ? & ? & ? & ? & ? & _).
  change (2 ^ 256) with
    (4294967296 * (4294967296 * (4294967296 * (4294967296 *
      (4294967296 * (4294967296 * (4294967296 * 4294967296))))))).
  nia.
Qed.

Lemma horner_inj (B a b a' b' : Z) :
  0 <= b < B -> 0 <= b' < B -> a * B + b = a' * B + b' -> a = a' /\ b = b'.
Proof.
  intros Hb Hb' E.
  assert (a = a') as ->; [| lia].
  destruct (Z.lt_trichotomy a a') as [Hlt | [-> | Hgt]]; [| done |].
  - assert (a * B + B <= a' * B) by nia. lia.
  - assert (a' * B + B <= a * B) by nia. lia.
Qed.

Lemma digest_value_inj (s1 s2 : SHA256.state) :
  word_bounded s1 -> word_bounded s2 ->
  digest_value s1 = digest_value s2 -> s1 = s2.
Proof.
  destruct s1 as [a1 b1 c1 d1 e1 f1 g1 h1], s2 as [a2 b2 c2 d2 e2 f2 g2 h2].
  unfold word_bounded, digest_value, SHA256.state_words.
  cbn [ SHA256.sa SHA256.sb SHA256.sc SHA256.sd SHA256.se
       SHA256.sf SHA256.sg SHA256.sh fold_left].
  rewrite !Forall_cons.
  intros (? & ? & ? & ? & ? & ? & ? & ? & _) (? & ? & ? & ? & ? & ? & ? & ? & _) E.
  apply horner_inj in E as [E ->]; [| done ..].
  apply horner_inj in E as [E ->]; [| done ..].
  apply horner_inj in E as [E ->]; [| done ..].
  apply horner_inj in E as [E ->]; [| done ..].
  apply horner_inj in E as [E ->]; [| done ..].
  apply horner_inj in E as [E ->]; [| done ..].
  apply horner_inj in E as [E ->]; [| done ..].
  f_equal. lia.
Qed.

Lemma etag_collision (t : TheatreRead) :
  exists c1 c2 : Z,
    c1 <> c2 /\ _calc_etag (with_capacity c1 t) = _calc_etag (with_capacity c2 t).
Proof.
  pose (f := fun i : N =>
    Z.to_N (digest_value (SHA256.sha256 (payload (with_capacity (Z.of_N i) t))))).
  destruct (pigeonhole (2 ^ 256)%N f) as (i & j & Hij & _ & Hf).
  { intros i _. unfold f.
    pose proof (digest_value_bounded _ (sha256_bounded
      (payload (with_capacity (Z.of_N i) t)))) as Hb.
    change (2 ^ 256)%N with (Z.to_N (2 ^ 256)). lia. }
  exists (Z.of_N i), (Z.of_N j). split; [lia |].
  unfold f in Hf.
  pose proof (sha256_bounded (payload (with_capacity (Z.of_N i) t))) as Bi.
  pose proof (sha256_bounded (payload (with_capacity (Z.of_N j) t))) as Bj.
  pose proof (digest_value_bounded _ Bi) as Hi.
  pose proof (digest_value_bounded _ Bj) as Hj.
  apply Z2N.inj in Hf; [| lia ..].
  apply digest_value_inj in Hf; [| done ..].
  unfold _calc_etag. by rewrite Hf.
Qed.

(** *** The ETag against the payload *)

Lemma calc_etag_eq_iff (t1 t2 : TheatreRead) :
  _calc_etag t1 = _calc_etag t2 <->
  SHA256.hexdigest (SHA256.sha256 (payload t1))
  = SHA256.hexdigest (SHA256.sha256 (payload t2)).
Proof.
  unfold _calc_etag.
  generalize (SHA256.hexdigest (SHA256.sha256 (payload t1))).
  generalize (SHA256.hexdigest (SHA256.sha256 (payload t2))).
  intros h2 h1. split; [| by intros ->].
  intros E. apply (f_equal list_ascii_of_string) in E.
  rewrite !list_ascii_of_string_of_list_ascii in E.
  apply cons_eq_tail in E. by apply app_inv_tail in E.
Qed.

Lemma differ_in_a_field_neq (t1 t2 : TheatreRead) :
  differ_in_a_field t1 t2 -> t1 <> t2.
Proof. unfold differ_in_a_field. intros H ->. tauto. Qed.

(** The stores the service can reach keep every theatre under its own
    identifier. *)
Lemma store_ok_empty {S M T : Type} (g : @Stores S M T) :
  theatres g = ∅ -> store_ok g.
Proof. unfold store_ok. intros ->. apply map_Forall_empty. Qed.

Lemma handle_store_ok {S M T : Type} (r : Request) (g : @Stores S M T) :
  valid_request r = true -> store_ok g -> store_ok (handle r g).2.
Proof.
  unfold store_ok. intros Hr Hg.
  assert (forall k t, valid_theatre t = true -> id t = k ->
    map_Forall (fun k t => id t = k /\ valid_theatre t = true)
      (<[k := t]> (theatres g))) as Hins.
  { intros k t Hv Hk. by apply map_Forall_insert_2. }
  destruct r as [env t | k inm | env k t im | k im]; simpl in Hr.
  - rewrite handle_POST. simpl. by apply Hins.
  - destruct (theatres g !! k) as [item|] eqn:E;
      [destruct (decide (inm = Some (_calc_etag item))) as [-> | Hne] |].
    + by rewrite (handle_GET_fresh g k item E).
    + by rewrite (handle_GET_stale g k item inm E Hne).
    + by rewrite (handle_GET_absent g k inm E).
  - destruct (theatres g !! k) as [existing|] eqn:E;
      [destruct im as [m|];
       [destruct (decide (m = _calc_etag existing)) as [-> | Hne] |] |].
    + rewrite (handle_PUT_match g env k t existing E). simpl. by apply Hins.
    + by rewrite (handle_PUT_mismatch g env k t existing m E Hne).
    + by rewrite (handle_PUT_missing g env k t existing E).
    + by rewrite (handle_PUT_absent g env k t im E).
  - destruct (theatres g !! k) as [existing|] eqn:E;
      [destruct im as [m|];
       [destruct (decide (m = _calc_etag existing)) as [-> | Hne] |] |].
    + rewrite (handle_DELETE_ok g k existing _ E (or_intror eq_refl)). simpl.
      by apply map_Forall_delete.
    + by rewrite (handle_DELETE_mismatch g k existing m E Hne).
    + rewrite (handle_DELETE_ok g k existing _ E (or_introl eq_refl)). simpl.
      by apply map_Forall_delete.
    + by rewrite (handle_DELETE_absent g k im E).
Qed.

(** C2, amended. The ETag is computed from the whole dump, the identifier
    and the timestamps included: two theatres whose dumps agree have the
    same ETag, but two theatres stored under distinct identifiers have
    distinct canonical payloads whatever their business fields, and their
    ETags are equal exactly when the SHA-256 digests of those payloads
    are. *)
Theorem etag_covers_identity {S M T : Type} (g : @Stores S M T)
    (k1 k2 : UUID) (t1 t2 : TheatreRead) :
  store_ok g ->
  theatres g !! k1 = Some t1 -> theatres g !! k2 = Some t2 -> k1 <> k2 ->
  payload t1 <> payload t2
  /\ (_calc_etag t1 = _calc_etag t2 <->
      SHA256.hexdigest (SHA256.sha256 (payload t1))
      = SHA256.hexdigest (SHA256.sha256 (payload t2)))
  /\ (forall t1' t2' : TheatreRead,
        model_dump t1' = model_dump t2' -> _calc_etag t1' = _calc_etag t2').
Proof.
  intros Hg H1 H2 Hk.
  destruct (Hg k1 t1 H1) as [Hid1 V1]. destruct (Hg k2 t2 H2) as [Hid2 V2].
  split; [| split].
  - intros E. apply Hk. rewrite <- Hid1, <- Hid2.
    by rewrite (payload_inj t1 t2 V1 V2 E).
  - apply calc_etag_eq_iff.
  - apply calc_etag_of_dump.
Qed.

(** C8, amended. Changing the value of any dumped field of a valid theatre
    changes the canonical payload that is hashed; the ETag then changes
    unless the two distinct payloads have the same SHA-256 digest. *)
Theorem payload_change_sensitive (t1 t2 : TheatreRead) :
  valid_theatre t1 = true -> valid_theatre t2 = true ->
  differ_in_a_field t1 t2 ->
  payload t1 <> payload t2
  /\ (_calc_etag t1 <> _calc_etag t2 <->
      SHA256.hexdigest (SHA256.sha256 (payload t1))
      <> SHA256.hexdigest (SHA256.sha256 (payload t2))).
Proof.
  intros V1 V2 Hd. split.
  - intros E. by apply (differ_in_a_field_neq t1 t2 Hd), payload_inj.
  - by rewrite calc_etag_eq_iff.
Qed.

(** ** Worked instances *)

Module Instances.
Import Sample.

Lemma store1_k1 : theatres store1 !! k1 = Some stored1.
Proof. vm_compute. reflexivity. Defined.

Lemma store1_k2 : theatres store1 !! k2 = None.
Proof. vm_compute. reflexivity. Defined.

Lemma stale_etag : "stale"%string <> _calc_etag stored1.
Proof. vm_compute. discriminate. Defined.

Lemma replace_theatre_guard_witness :
  status_code (handle (PUT_theatre env2 k1 bigger_cinema None) store1).1 = 428
  /\ status_code
       (handle (PUT_theatre env2 k1 bigger_cinema (Some "stale"%string)) store1).1
     = 412
  /\ status_code (handle (PUT_theatre env2 k2 bigger_cinema None) store1).1 = 404.
Proof.
  destruct (replace_theatre_guard store1 env2 k1 bigger_cinema) as [Hpresent _].
  destruct (replace_theatre_guard store1 env2 k2 bigger_cinema) as [_ Habsent].
  destruct (Hpresent stored1 store1_k1) as [[H428 _] [H412 _]].
  split; [exact H428 |].
  split; [exact (proj1 (H412 _ stale_etag)) |].
  exact (proj1 (Habsent store1_k2 None)).
Defined.

Lemma get_theatre_conditional_witness :
  handle (GET_theatre k1 (Some (_calc_etag stored1))) store1
    = (mkResponse 304 [("ETag"%string, _calc_etag stored1)] Empty, store1)
  /\ handle (GET_theatre k1 None) store1
    = (mkResponse 200 [("ETag"%string, _calc_etag stored1)] (Model stored1),
       store1)
  /\ status_code (handle (GET_theatre k2 None) store1).1 = 404.
Proof.
  destruct (get_theatre_conditional store1 k1) as [Hpresent _].
  destruct (get_theatre_conditional store1 k2) as [_ Habsent].
  destruct (Hpresent stored1 store1_k1) as [H304 H200].
  split; [exact (H304 _ eq_refl) |].
  split; [apply H200; discriminate |].
  exact (proj1 (Habsent store1_k2 None)).
Defined.

Lemma delete_theatre_guard_witness :
  theatres (handle (DELETE_theatre k1 (Some "stale"%string)) store1).2 !! k1
    = Some stored1
  /\ theatres (handle (DELETE_theatre k1 None) store1).2 !! k1 = None
  /\ status_code (handle (DELETE_theatre k2 None) store1).1 = 404.
Proof.
  destruct (delete_theatre_guard store1 k1) as [Hpresent _].
  destruct (delete_theatre_guard store1 k2) as [_ Habsent].
  destruct (Hpresent stored1 store1_k1) as [H412 Hok].
  split; [exact (proj2 (H412 _ stale_etag)) |].
  split; [| exact (Habsent store1_k2 None)].
  specialize (Hok None (or_introl eq_refl)).
  destruct (handle (DELETE_theatre k1 None) store1) as [resp g'].
  exact (proj1 (proj2 (proj2 Hok))).
Defined.

Lemma get_absent_404 : status_code (handle (GET_theatre k2 None) store1).1 = 404.
Proof. vm_compute. reflexivity. Defined.

Lemma post_changes_store :
  (handle (POST_theatres env1 grand_cinema) store0).2 <> store0.
Proof.
  intros E. apply (f_equal (fun g => theatres g !! k1)) in E.
  vm_compute in E. discriminate E.
Defined.

Lemma error_leaves_stores_witness :
  (handle (GET_theatre k2 None) store1).2 = store1
  /\ (status_code (handle (POST_theatres env1 grand_cinema) store0).1 = 200
      \/ status_code (handle (POST_theatres env1 grand_cinema) store0).1 = 201).
Proof.
  split.
  - apply (proj1 (error_leaves_stores (GET_theatre k2 None) store1)).
    left. exact get_absent_404.
  - apply (proj2 (error_leaves_stores (POST_theatres env1 grand_cinema) store0)).
    exact post_changes_store.
Defined.

Lemma calc_etag_deterministic_witness :
  json_dumps (reverse (exclude_none (model_dump stored1)))
    = json_dumps (exclude_none (model_dump stored1))
  /\ _calc_etag stored1 = _calc_etag stored1.
Proof.
  destruct (@calc_etag_deterministic unit unit unit) as [Horder [Hdump _]].
  split.
  - apply Horder. apply reverse_Permutation.
  - apply Hdump. reflexivity.
Defined.

Lemma post_etag_header :
  ("ETag"%string, _calc_etag stored1)
    ∈ headers (handle (POST_theatres env1 grand_cinema) store0).1.
Proof. rewrite handle_POST. simpl. left. Defined.

Lemma etag_header_format_witness : is_etag_format (_calc_etag stored1) = true.
Proof.
  destruct (@etag_header_format unit unit unit) as [_ Hheader].
  exact (Hheader (POST_theatres env1 grand_cinema) store0 _ post_etag_header).
Defined.

Lemma theatre_operation_frame_witness :
  theatres (handle (DELETE_theatre k2 None) store1).2 !! k1
    = theatres store1 !! k1.
Proof.
  apply (proj1 (theatre_operation_frame (DELETE_theatre k2 None) store1 k1)).
  vm_compute. discriminate.
Defined.

(** The scenario of the specification: create, read, replace, replace
    again with the stale ETag, delete with the new one, read. *)
Example end_to_end_scenario :
  let '(r1, g1) := handle (POST_theatres env1 grand_cinema) store0 in
  let e1 := _calc_etag stored1 in
  let '(r2, g2) := handle (GET_theatre k1 None) g1 in
  let '(r3, g3) := handle (PUT_theatre env1 k1 bigger_cinema (Some e1)) g2 in
  let e2 := _calc_etag stored3 in
  let '(r4, g4) := handle (PUT_theatre env1 k1 bigger_cinema (Some e1)) g3 in
  let '(r5, g5) := handle (DELETE_theatre k1 (Some e2)) g4 in
  let '(r6, g6) := handle (GET_theatre k1 None) g5 in
  (status_code r1, headers r1) = (201, [("ETag"%string, e1)])
  /\ (status_code r2, headers r2) = (200, [("ETag"%string, e1)])
  /\ (status_code r3, headers r3) = (200, [("ETag"%string, e2)])
  /\ e2 <> e1
  /\ status_code r4 = 412
  /\ status_code r5 = 200
  /\ status_code r6 = 404
  /\ g6 = store0.
Proof. vm_compute. repeat split. discriminate. Qed.

Lemma stored1_valid : valid_theatre stored1 = true.
Proof. vm_compute. reflexivity. Defined.

Lemma stored2_valid : valid_theatre stored2 = true.
Proof. vm_compute. reflexivity. Defined.

Lemma stored_ids_differ : id stored1 <> id stored2.
Proof. vm_compute. discriminate. Defined.

(** The two sample ETags, as [hashlib] gives them for the same payloads. *)
Example calc_etag_stored1 :
  _calc_etag stored1
  = string_of_list_ascii
      (DQUOTE
       :: list_ascii_of_string
            "2933cf42fbf0564e0f82e8a11438917084d489c46042c8e94be426f606ceacfd"
       ++ [DQUOTE]).
Proof. vm_compute. reflexivity. Qed.

Example calc_etag_stored2 :
  _calc_etag stored2
  = string_of_list_ascii
      (DQUOTE
       :: list_ascii_of_string
            "09498ebffe84f1c5e9a14b0f030f16bd96a111013caea671203f45d35ef2b82c"
       ++ [DQUOTE]).
Proof. vm_compute. reflexivity. Qed.

(** C2 as stated fails: two creations from the same body leave two
    theatres with the same business fields and timestamps under two
    identifiers, and their ETags differ. *)
Lemma etag_depends_on_id :
  theatres store2 !! k1 = Some stored1
  /\ theatres store2 !! k2 = Some stored2
  /\ k1 <> k2
  /\ business_fields stored1 = business_fields stored2
  /\ created_at stored1 = created_at stored2
  /\ updated_at stored1 = updated_at stored2
  /\ _calc_etag stored1 <> _calc_etag stored2.
Proof. vm_compute. repeat split; discriminate. Qed.

Lemma store2_ok : store_ok store2.
Proof.
  apply (handle_store_ok (POST_theatres env2 grand_cinema));
    [vm_compute; reflexivity |].
  apply (handle_store_ok (POST_theatres env1 grand_cinema));
    [vm_compute; reflexivity |].
  by apply store_ok_empty.
Defined.

Lemma store2_k1 : theatres store2 !! k1 = Some stored1.
Proof. vm_compute. reflexivity. Defined.

Lemma store2_k2 : theatres store2 !! k2 = Some stored2.
Proof. vm_compute. reflexivity. Defined.

Lemma etag_covers_identity_witness : payload stored1 <> payload stored2.
Proof.
  apply (etag_covers_identity store2 k1 k2 stored1 stored2
           store2_ok store2_k1 store2_k2).
  vm_compute. discriminate.
Defined.

(** C8 as stated fails: there are more capacities than digests, so two
    valid theatres that differ in their capacity alone share an ETag. *)
Lemma etag_collision_exists :
  exists t1 t2 : TheatreRead,
    valid_theatre t1 = true /\ valid_theatre t2 = true
    /\ capacity t1 <> capacity t2
    /\ (id t1, name t1, address t1, city t1, state t1, postal_code t1,
        country t1, phone t1, email t1, created_at t1, updated_at t1)
       = (id t2, name t2, address t2, city t2, state t2, postal_code t2,
          country t2, phone t2, email t2, created_at t2, updated_at t2)
    /\ _calc_etag t1 = _calc_etag t2.
Proof.
  destruct (etag_collision stored1) as (c1 & c2 & Hc & E).
  exists (with_capacity c1 stored1), (with_capacity c2 stored1).
  repeat split; [| done]. simpl. congruence.
Qed.

Lemma stored3_valid : valid_theatre stored3 = true.
Proof. vm_compute. reflexivity. Defined.

Lemma stored_capacities_differ : differ_in_a_field stored1 stored3.
Proof. do 9 right. left. vm_compute. discriminate. Defined.

Lemma payload_change_sensitive_witness : payload stored1 <> payload stored3.
Proof.
  apply (payload_change_sensitive stored1 stored3 stored1_valid stored3_valid).
  exact stored_capacities_differ.
Defined.

Lemma create_theatre_transition_witness :
  (k2 ∉ dom (theatres store1))
  /\ dom (theatres (handle (POST_theatres env2 grand_cinema) store1).2)
     = {[k2]} ∪ dom (theatres store1)
  /\ theatres (handle (POST_theatres env2 grand_cinema) store1).2 !! k1
     = Some stored1.
Proof.
  destruct (create_theatre_transition store1 env2 grand_cinema) as [stored H].
  destruct (handle (POST_theatres env2 grand_cinema) store1) as [resp g'].
  destruct H as (_ & Hid & _ & _ & _ & _ & Hframe & Hfresh & _).
  change (default_id env2) with k2 in Hid. rewrite Hid in Hframe, Hfresh.
  destruct (Hfresh store1_k2) as (Hnew & Hdom & _).
  split; [exact Hnew |]. split; [exact Hdom |].
  cbn [snd]. rewrite (Hframe k1) by (vm_compute; discriminate). exact store1_k1.
Defined.

Lemma stored3_differs : stored1 <> stored3.
Proof. vm_compute. discriminate. Defined.

(** The identifier that POST stores under need not be new: when the model
    generates one that is already stored, the theatre there is overwritten
    and the set of identifiers stays as it was. *)
Lemma create_overwrites_existing :
  theatres store1 !! default_id env1 = Some stored1
  /\ status_code (handle (POST_theatres env1 bigger_cinema) store1).1 = 201
  /\ theatres (handle (POST_theatres env1 bigger_cinema) store1).2 !! default_id env1
     = Some stored3
  /\ stored1 <> stored3
  /\ dom (theatres (handle (POST_theatres env1 bigger_cinema) store1).2)
     = dom (theatres store1)
  /\ size (theatres (handle (POST_theatres env1 bigger_cinema) store1).2) = 1%nat.
Proof.
  split; [exact store1_k1 |]. rewrite handle_POST.
  cbn [fst snd status_code theatres with_theatres]. split; [reflexivity |].
  split; [apply lookup_insert_eq |]. split; [exact stored3_differs |].
  change (default_id env1) with k1. unfold store1. cbn [theatres].
  rewrite insert_singleton. split; [by rewrite !dom_singleton_L |].
  apply map_size_singleton.
Qed.

End Instances.

(** * Further properties *)

(** ** Sequences of requests and how the handlers compose *)

Section MoreServiceProperties.

Context {ScreenRead MovieRead ShowtimeRead : Type}.
Abbreviation Stores := (@Stores ScreenRead MovieRead ShowtimeRead).
Implicit Types (g : Stores) (k : UUID) (env : Defaults) (t : TheatreCreate).

Local Opaque _calc_etag uuid_str.
Local Arguments handle : simpl never.

Ltac split_request r g :=
  destruct r as [env t | k inm | env k t im | k im];
  [ rewrite handle_POST
  | destruct (theatres g !! k) as [item|] eqn:E;
    [ destruct (decide (inm = Some (_calc_etag item))) as [-> | Hne];
      [ rewrite (handle_GET_fresh g k item E)
      | rewrite (handle_GET_stale g k item inm E Hne) ]
    | rewrite (handle_GET_absent g k inm E) ]
  | destruct (theatres g !! k) as [existing|] eqn:E;
    [ destruct im as [m|];
      [ destruct (decide (m = _calc_etag existing)) as [-> | Hne];
        [ rewrite (handle_PUT_match g env k t existing E)
        | rewrite (handle_PUT_mismatch g env k t existing m E Hne) ]
      | rewrite (handle_PUT_missing g env k t existing E) ]
    | rewrite (handle_PUT_absent g env k t im E) ]
  | destruct (theatres g !! k) as [existing|] eqn:E;
    [ destruct im as [m|];
      [ destruct (decide (m = _calc_etag existing)) as [-> | Hne];
        [ rewrite (handle_DELETE_ok g k existing _ E (or_intror eq_refl))
        | rewrite (handle_DELETE_mismatch g k existing m E Hne) ]
      | rewrite (handle_DELETE_ok g k existing _ E (or_introl eq_refl)) ]
    | rewrite (handle_DELETE_absent g k im E) ] ];
  simpl.

Lemma handle_keys_are_ids (r : Request) g :
  keys_are_ids g -> keys_are_ids (handle r g).2.
Proof.
  unfold keys_are_ids. intros Hg. split_request r g; try done.
  - by apply map_Forall_insert_2.
  - by apply map_Forall_insert_2.
  - by apply map_Forall_delete.
  - by apply map_Forall_delete.
Qed.

(** X1. Whatever requests are served, every stored theatre stays under its
    own identifier. *)
Theorem run_requests_keys_are_ids (rs : list Request) g :
  keys_are_ids g -> keys_are_ids (run_requests rs g).
Proof.
  revert g. induction rs as [|r rs IH]; intros g Hg; [done |].
  simpl. by apply IH, handle_keys_are_ids.
Qed.

(** X2. The status codes each method can answer; none is a 500. *)
Theorem handle_status_codes (r : Request) g :
  match r with
  | POST_theatres _ _ => status_code (handle r g).1 = 201
  | GET_theatre _ _ => status_code (handle r g).1 ∈ [200; 304; 404]
  | PUT_theatre _ _ _ _ => status_code (handle r g).1 ∈ [200; 404; 412; 428]
  | DELETE_theatre _ _ => status_code (handle r g).1 ∈ [200; 404; 412]
  end.
Proof.
  split_request r g; try done;
    repeat first [apply list_elem_of_here | apply list_elem_of_further].
Qed.

(** X3. The set of stored identifiers: POST adds the generated one, GET and
    PUT never change it, DELETE removes its own exactly when it answers 200. *)
Theorem handle_dom (r : Request) g :
  dom (theatres (handle r g).2) =
  match r with
  | POST_theatres env _ => {[default_id env]} ∪ dom (theatres g)
  | GET_theatre _ _ | PUT_theatre _ _ _ _ => dom (theatres g)
  | DELETE_theatre k _ =>
      if decide (status_code (handle r g).1 = 200)
      then dom (theatres g) ∖ {[k]}
      else dom (theatres g)
  end.
Proof.
  split_request r g; try done.
  - by rewrite dom_insert_L.
  - rewrite dom_insert_L. apply elem_of_dom_2 in E.
    apply subseteq_union_1_L, singleton_subseteq_l, E.
  - by rewrite dom_delete_L.
  - by rewrite dom_delete_L.
Qed.

(** X4. Lost updates are refused: once a PUT under If-Match [e] has gone
    through and changed the ETag, a second PUT under the same [e] answers
    412 and the first write stays; under the new ETag it goes through. *)
Theorem second_writer_refused g env env' k t t' existing :
  theatres g !! k = Some existing ->
  _calc_etag (TheatreRead_with_id env k t) <> _calc_etag existing ->
  let e := _calc_etag existing in
  let first := TheatreRead_with_id env k t in
  let g1 := (handle (PUT_theatre env k t (Some e)) g).2 in
  theatres g1 !! k = Some first
  /\ status_code (handle (PUT_theatre env' k t' (Some e)) g1).1 = 412
  /\ (handle (PUT_theatre env' k t' (Some e)) g1).2 = g1
  /\ status_code
       (handle (PUT_theatre env' k t' (Some (_calc_etag first))) g1).1 = 200.
Proof.
  intros E Hne e first g1.
  assert (theatres g1 !! k = Some first) as E1.
  { unfold g1, e. rewrite (handle_PUT_match g env k t existing E). simpl.
    apply lookup_insert_eq. }
  split; [done |].
  rewrite (handle_PUT_mismatch g1 env' k t' first e E1)
    by (intros Heq; apply Hne; symmetry; exact Heq).
  by rewrite (handle_PUT_match g1 env' k t' first E1).
Qed.

(** X5. A write can be read back: after a POST, and after a PUT that went
    through, a plain GET answers 200 with the value just stored and the
    ETag the write announced, and a GET under that ETag answers 304. *)
Theorem write_then_read (r : Request) g :
  match r with
  | POST_theatres _ _ | PUT_theatre _ _ _ _ =>
      status_code (handle r g).1 = 200 \/ status_code (handle r g).1 = 201
  | _ => False
  end ->
  let '(w, g1) := handle r g in
  exists stored etag,
    body w = Model stored
    /\ headers w = [("ETag"%string, etag)]
    /\ handle (GET_theatre (target r) None) g1
       = (mkResponse 200 [("ETag"%string, etag)] (Model stored), g1)
    /\ handle (GET_theatre (target r) (Some etag)) g1
       = (mkResponse 304 [("ETag"%string, etag)] Empty, g1).
Proof.
  split_request r g; try tauto; try (intros [? | ?]; done); intros _.
  - eexists _, _. repeat split.
    + apply handle_GET_stale; [apply lookup_insert_eq | done].
    + apply handle_GET_fresh. apply lookup_insert_eq.
  - eexists _, _. repeat split.
    + apply handle_GET_stale; [apply lookup_insert_eq | done].
    + apply handle_GET_fresh. apply lookup_insert_eq.
Qed.

(** X6. A deleted theatre stays deleted: after a DELETE answered with 200,
    GET, PUT and DELETE on that identifier all answer 404 and change
    nothing; a PUT does not bring the resource back. *)
Theorem deleted_stays_deleted g k im (r : Request) :
  status_code (handle (DELETE_theatre k im) g).1 = 200 ->
  match r with POST_theatres _ _ => False | _ => target r = k end ->
  let g1 := (handle (DELETE_theatre k im) g).2 in
  status_code (handle r g1).1 = 404 /\ (handle r g1).2 = g1
  /\ theatres g1 !! k = None.
Proof.
  intros H200 Hr g1.
  assert (theatres g1 !! k = None) as E1.
  { unfold g1. revert H200.
    destruct (theatres g !! k) as [existing|] eqn:E;
      [destruct im as [m|];
       [destruct (decide (m = _calc_etag existing)) as [-> | Hne] |] |].
    - rewrite (handle_DELETE_ok g k existing _ E (or_intror eq_refl)). simpl.
      intros _. apply lookup_delete_eq.
    - by rewrite (handle_DELETE_mismatch g k existing m E Hne).
    - rewrite (handle_DELETE_ok g k existing _ E (or_introl eq_refl)). simpl.
      intros _. apply lookup_delete_eq.
    - by rewrite (handle_DELETE_absent g k im E). }
  destruct r as [env t | k' inm | env k' t im' | k' im']; simpl in Hr;
    [done | subst k' ..].
  - by rewrite (handle_GET_absent g1 k inm E1).
  - by rewrite (handle_PUT_absent g1 env k t im' E1).
  - by rewrite (handle_DELETE_absent g1 k im' E1).
Qed.

(** X8. The second [get_theatre]: it never writes, sets no ETag and never
    answers 304; where the first one answers 200 or 404 it answers with
    the same status and body. *)
Theorem get_theatre_2_agrees g k inm :
  let '(r2, g2) := serve 200 (get_theatre_2 k) g in
  let '(r1, g1) := handle (GET_theatre k inm) g in
  g2 = g /\ headers r2 = []
  /\ (status_code r2 = 200 \/ status_code r2 = 404)
  /\ (status_code r1 <> 304 -> status_code r2 = status_code r1 /\ body r2 = body r1).
Proof.
  unfold serve at 1, get_theatre_2, bind, ret, raise, theatres_get. simpl.
  destruct (theatres g !! k) as [item|] eqn:E;
    [destruct (decide (inm = Some (_calc_etag item))) as [-> | Hne] |].
  - rewrite (handle_GET_fresh g k item E). simpl. intuition congruence.
  - rewrite (handle_GET_stale g k item inm E Hne). simpl. intuition congruence.
  - rewrite (handle_GET_absent g k inm E). simpl. intuition congruence.
Qed.

(** X7. Validators are compared as strings: a header value that is not of
    the quoted-digest form (a wildcard, a weak validator, a list) never
    matches, so PUT and DELETE answer 412 and leave the stores as they
    were, the theatre still stored, and GET answers 200 with the theatre
    and its ETag. *)
Theorem malformed_validator_never_matches g env k t existing (v : string) :
  theatres g !! k = Some existing ->
  is_etag_format v = false ->
  status_code (handle (PUT_theatre env k t (Some v)) g).1 = 412
  /\ (handle (PUT_theatre env k t (Some v)) g).2 = g
  /\ status_code (handle (DELETE_theatre k (Some v)) g).1 = 412
  /\ (handle (DELETE_theatre k (Some v)) g).2 = g
  /\ theatres (handle (PUT_theatre env k t (Some v)) g).2 !! k = Some existing
  /\ theatres (handle (DELETE_theatre k (Some v)) g).2 !! k = Some existing
  /\ handle (GET_theatre k (Some v)) g
     = (mkResponse 200 [("ETag"%string, _calc_etag existing)] (Model existing), g).
Proof.
  intros E Hv.
  assert (v <> _calc_etag existing) as Hne.
  { intros ->. by rewrite calc_etag_format in Hv. }
  rewrite (handle_PUT_mismatch g env k t existing v E Hne).
  rewrite (handle_DELETE_mismatch g k existing v E Hne).
  rewrite (handle_GET_stale g k existing (Some v) E) by congruence.
  done.
Qed.

End MoreServiceProperties.

(** ** The texts of identifiers and timestamps *)

Lemma matches_app (p1 p2 t1 t2 : list ascii) :
  matches p1 t1 = true -> matches p2 t2 = true -> matches (p1 ++ p2) (t1 ++ t2) = true.
Proof.
  revert t1. induction p1 as [|p p1 IH]; intros [|c t1]; simpl; try done.
  intros [Hc H1]%andb_true_iff H2. by rewrite Hc, IH.
Qed.

Lemma matches_length (p t : list ascii) : matches p t = true -> length t = length p.
Proof.
  revert t. induction p as [|c p IH]; intros [|c' t]; simpl; try done.
  intros [_ H]%andb_true_iff. by rewrite (IH t).
Qed.

Lemma is_digit_decchar (d : N) : (d < 10)%N -> is_digit (decchar d) = true.
Proof.
  intros Hd. unfold is_digit, decchar. rewrite N_ascii_embedding by lia.
  apply andb_true_iff. split; apply N.leb_le; lia.
Qed.

Lemma matches_dec_digits (n : nat) (x : N) :
  matches (repeat "d"%char n) (dec_digits n x) = true.
Proof.
  unfold dec_digits. generalize (rev (seq 0 n)) (List.length_rev (seq 0 n)).
  rewrite List.length_seq. intros l Hl. subst n.
  induction l as [|i l IH]; [done |].
  cbn [length repeat List.map matches]. change (Ascii.eqb "d" "d") with true.
  cbv iota. rewrite is_digit_decchar by (apply N.mod_lt; lia). done.
Qed.

Lemma matches_hex (l : list ascii) :
  Forall (fun c => is_lower_hex c = true) l ->
  matches (repeat "h"%char (length l)) l = true.
Proof.
  induction 1 as [|c l Hc _ IH]; [done |].
  cbn [length repeat matches]. change (Ascii.eqb "h" "d") with false.
  change (Ascii.eqb "h" "h") with true. cbv iota. by rewrite Hc.
Qed.

Lemma matches_lit (c : ascii) :
  Ascii.eqb c "d" = false -> Ascii.eqb c "h" = false -> matches [c] [c] = true.
Proof. intros Hd Hh. simpl. by rewrite Hd, Hh, Ascii.eqb_refl. Qed.

Lemma matches_cons_lit (c : ascii) (p t : list ascii) :
  Ascii.eqb c "d" = false -> Ascii.eqb c "h" = false ->
  matches p t = true -> matches (c :: p) (c :: t) = true.
Proof. intros Hd Hh H. simpl. by rewrite Hd, Hh, Ascii.eqb_refl, H. Qed.

Ltac picture :=
  repeat first
    [ reflexivity
    | apply matches_dec_digits
    | apply matches_app; [apply matches_dec_digits |]
    | apply matches_cons_lit; [reflexivity | reflexivity |] ].

Lemma isoformat_Z_shape (d : datetime) :
  matches
    (list_ascii_of_string
       (if (microsecond d =? 0)%N then "dddd-dd-ddTdd:dd:ddZ"
        else "dddd-dd-ddTdd:dd:dd.ddddddZ"))
    (isoformat d ++ ["Z"%char]) = true.
Proof.
  unfold isoformat. destruct (microsecond d =? 0)%N;
    rewrite ?app_nil_r; repeat (rewrite <- ?app_assoc, <- ?app_comm_cons).
  - change (list_ascii_of_string "dddd-dd-ddTdd:dd:ddZ") with
      (repeat "d"%char 4 ++ "-"%char :: repeat "d"%char 2 ++ "-"%char
       :: repeat "d"%char 2 ++ "T"%char :: repeat "d"%char 2 ++ ":"%char
       :: repeat "d"%char 2 ++ ":"%char :: repeat "d"%char 2 ++ ["Z"%char]).
    picture.
  - change (list_ascii_of_string "dddd-dd-ddTdd:dd:dd.ddddddZ") with
      (repeat "d"%char 4 ++ "-"%char :: repeat "d"%char 2 ++ "-"%char
       :: repeat "d"%char 2 ++ "T"%char :: repeat "d"%char 2 ++ ":"%char
       :: repeat "d"%char 2 ++ ":"%char :: repeat "d"%char 2 ++ "."%char
       :: repeat "d"%char 6 ++ ["Z"%char]).
    picture.
Qed.

Lemma isoformat_Z_format (d : datetime) :
  is_timestamp_format (isoformat d ++ ["Z"%char]) = true.
Proof.
  unfold is_timestamp_format. pose proof (isoformat_Z_shape d) as H.
  destruct (microsecond d =? 0)%N; rewrite H; [done | apply orb_true_r].
Qed.

Lemma isoformat_Z_length (d : datetime) :
  length (isoformat d ++ ["Z"%char])
  = if (microsecond d =? 0)%N then 20%nat else 27%nat.
Proof.
  rewrite (matches_length _ _ (isoformat_Z_shape d)).
  by destruct (microsecond d =? 0)%N.
Qed.

Lemma uuid_str_format (u : UUID) : is_uuid_format (uuid_str u) = true.
Proof.
  unfold is_uuid_format, uuid_str, hex_digits.
  pose proof (hex_digits_lower 32 (Z.of_N u)) as Hhex.
  pose proof (hex_digits_length 32 (Z.of_N u)) as Hlen.
  generalize dependent (SHA256.hex_digits 32 (Z.of_N u)). intros x Hhex Hlen.
  do 32 (destruct x as [|? x]; [discriminate Hlen |]).
  destruct x; [| discriminate Hlen].
  repeat (apply Forall_cons in Hhex as [? Hhex]).
  cbn [take drop app matches list_ascii_of_string].
  repeat match goal with H : is_lower_hex _ = true |- _ => rewrite H; clear H end.
  reflexivity.
Qed.

Lemma uuid_str_length (u : UUID) : length (uuid_str u) = 36%nat.
Proof. by rewrite (matches_length _ _ (uuid_str_format u)). Qed.

(** X10. [default] loses nothing: the text it gives a UUID or a datetime
    determines the value, and no UUID shares its text with a datetime. *)
Theorem default_injective (o1 o2 : pyvalue) :
  valid_special o1 = true -> valid_special o2 = true ->
  default o1 = default o2 -> o1 = o2.
Proof.
  assert (forall a b : pystr, Some a = Some b -> a = b) as Hsome by congruence.
  destruct o1 as [s1 | z1 | u1 | d1]; cbn [valid_special];
    try (intros V1; discriminate V1);
    destruct o2 as [s2 | z2 | u2 | d2]; cbn [valid_special];
    try (intros V1 V2; discriminate V2);
    intros V1 V2 E; cbn [default] in E;
    apply Hsome, text_to_pystr_inj in E.
  - f_equal. by apply uuid_str_inj.
  - apply (f_equal length) in E.
    rewrite uuid_str_length, isoformat_Z_length in E.
    destruct (microsecond d2 =? 0)%N; discriminate E.
  - apply (f_equal length) in E.
    rewrite uuid_str_length, isoformat_Z_length in E.
    destruct (microsecond d1 =? 0)%N; discriminate E.
  - f_equal. apply app_inv_tail in E. by apply isoformat_inj.
Qed.

(** X11. What [default] writes has the shape of its type, and it refuses
    strings and integers. *)
Theorem default_shape (o : pyvalue) :
  match o with
  | PyUUID u =>
      exists t, default o = Some (text_to_pystr t) /\ is_uuid_format t = true
  | PyDatetime d =>
      exists t, default o = Some (text_to_pystr t)
                /\ is_timestamp_format t = true
                /\ length t = (if (microsecond d =? 0)%N then 20 else 27)%nat
  | PyStr _ | PyInt _ => default o = None
  end.
Proof.
  destruct o as [s | z | u | d]; cbn [default].
  - reflexivity.
  - reflexivity.
  - eexists. split; [reflexivity | apply uuid_str_format].
  - eexists. split; [reflexivity |].
    split; [apply isoformat_Z_format | apply isoformat_Z_length].
Qed.

(** X12. The health answer: status 200 and "OK", the echoes as given, and a
    timestamp of the ISO shape with a trailing Z from which the clock
    reading can be read back; there is no answer when the host name does
    not resolve. *)
Theorem make_health_answer (env : HostEnv) (echo path_echo : option string) :
  match gethostbyname env with
  | None => make_health env echo path_echo = None
  | Some ip =>
      exists h, make_health env echo path_echo = Some h
        /\ (h_status h, h_status_message h, h_ip_address h, h_echo h, h_path_echo h)
           = (200, "OK"%string, ip, echo, path_echo)
        /\ is_timestamp_format (h_timestamp h) = true
        /\ forall env' echo' path_echo' h',
             valid_datetime (utcnow env) = true ->
             valid_datetime (utcnow env') = true ->
             make_health env' echo' path_echo' = Some h' ->
             h_timestamp h' = h_timestamp h -> utcnow env' = utcnow env
  end.
Proof.
  unfold make_health. destruct (gethostbyname env) as [ip|]; [| reflexivity].
  cbn [mbind option_bind].
  eexists. split; [reflexivity |]. cbn [h_status h_status_message h_ip_address
    h_echo h_path_echo h_timestamp].
  split; [reflexivity |]. split; [apply isoformat_Z_format |].
  intros env' echo' path_echo' h' V V' Hh' E.
  destruct (gethostbyname env') as [ip'|]; cbn [mbind option_bind] in Hh';
    [| discriminate Hh'].
  assert (h_timestamp h' = isoformat (utcnow env') ++ ["Z"%char]) as Ht.
  { destruct h'. cbn [h_timestamp]. congruence. }
  rewrite Ht in E. apply app_inv_tail in E. by apply isoformat_inj.
Qed.

(** ** The bytes of the payload *)












(** ** The listing *)

Lemma list_theatres_map name city state country (items : list TheatreRow) :
  list_theatres name city state country items = listed <$> items.
Proof.
  unfold list_theatres.
  assert (forall acc, fold_left (fun ans item => ans ++ [listed item]) items acc
                      = acc ++ (listed <$> items)) as H.
  { induction items as [|x items IH]; intros acc; simpl.
    - by rewrite app_nil_r.
    - rewrite IH, <- app_assoc. done. }
  apply (H []).
Qed.

Lemma listed_inj (x y : TheatreRow) :
  valid_row x = true -> valid_row y = true -> listed x = listed y -> x = y.
Proof.
  unfold valid_row. intros [Vc Vu]%andb_true_iff [Vc' Vu']%andb_true_iff E.
  assert (getitem (pystr_of_string "name") (listed x)
          = getitem (pystr_of_string "name") (listed y)) as En by by rewrite E.
  assert (getitem (pystr_of_string "address") (listed x)
          = getitem (pystr_of_string "address") (listed y)) as Ea by by rewrite E.
  assert (getitem (pystr_of_string "created_at") (listed x)
          = getitem (pystr_of_string "created_at") (listed y)) as Ec by by rewrite E.
  assert (getitem (pystr_of_string "updated_at") (listed x)
          = getitem (pystr_of_string "updated_at") (listed y)) as Eu by by rewrite E.
  clear E. destruct x as [n a c u], y as [n' a' c' u'].
  change (Some (PyStr n) = Some (PyStr n')) in En.
  change (Some (PyStr a) = Some (PyStr a')) in Ea.
  change (Some (PyStr (text_to_pystr (isoformat c ++ ["Z"%char])))
          = Some (PyStr (text_to_pystr (isoformat c' ++ ["Z"%char])))) in Ec.
  change (Some (PyStr (text_to_pystr (isoformat u ++ ["Z"%char])))
          = Some (PyStr (text_to_pystr (isoformat u' ++ ["Z"%char])))) in Eu.
  simpl in Vc, Vu, Vc', Vu'.
  assert (n = n') as -> by congruence. assert (a = a') as -> by congruence.
  assert (c = c') as ->.
  { apply isoformat_inj; [done .. |]. apply (app_inv_tail ["Z"%char]).
    apply text_to_pystr_inj. congruence. }
  assert (u = u') as ->; [| done].
  apply isoformat_inj; [done .. |]. apply (app_inv_tail ["Z"%char]).
  apply text_to_pystr_inj. congruence.
Qed.

(** X13. GET /theatres ignores its four filters: it answers with one
    entry per row that the data service returned, in that order, each with
    the same fixed identifier, the name and the address of the row, the
    fixed capacity 60, and both timestamps of the row as ISO text with a
    trailing Z; from the answer the rows can be read back. *)
Theorem list_theatres_entries name city state country (items : list TheatreRow) :
  let ans := list_theatres name city state country items in
  length ans = length items
  /\ (forall i item, items !! i = Some item ->
        exists obj created updated,
          ans !! i = Some obj
          /\ getitem (pystr_of_string "id") obj = Some (PyStr listed_id)
          /\ getitem (pystr_of_string "name") obj = Some (PyStr (row_name item))
          /\ getitem (pystr_of_string "address") obj
             = Some (PyStr (row_address item))
          /\ getitem (pystr_of_string "capacity") obj = Some (PyInt 60)
          /\ created = isoformat (row_created_at item) ++ ["Z"%char]
          /\ updated = isoformat (row_updated_at item) ++ ["Z"%char]
          /\ getitem (pystr_of_string "created_at") obj
             = Some (PyStr (text_to_pystr created))
          /\ getitem (pystr_of_string "updated_at") obj
             = Some (PyStr (text_to_pystr updated))
          /\ is_timestamp_format created = true
          /\ is_timestamp_format updated = true)
  /\ (forall name' city' state' country',
        list_theatres name' city' state' country' items = ans)
  /\ (forall items',
        Forall (fun x => valid_row x = true) items ->
        Forall (fun x => valid_row x = true) items' ->
        list_theatres name city state country items' = ans -> items' = items).
Proof.
  intros ans. unfold ans. rewrite list_theatres_map.
  split; [by rewrite length_fmap |]. split; [| split].
  - intros i item Hi. exists (listed item). eexists _, _.
    rewrite list_lookup_fmap, Hi.
    split; [done |]. do 4 (split; [reflexivity |]).
    do 4 (split; [reflexivity |]).
    split; apply isoformat_Z_format.
  - intros. by rewrite list_theatres_map.
  - intros items' V V'. rewrite list_theatres_map. revert items' V'.
    induction V as [|x items Vx V IH]; intros [|y items'] V' E; try done.
    apply Forall_cons in V' as [Vy V']. rewrite !fmap_cons in E.
    assert (listed y = listed x) as Exy by congruence.
    assert (listed <$> items' = listed <$> items) as Erest by congruence.
    f_equal; [by apply listed_inj | by apply IH].
Qed.

(** ** The MySQL connector *)

Module MySQLProperties.
Import MySQL.

Local Arguments reverse : simpl never.

Ltac unfold_connector :=
  unfold trace, execute_query, execute_update, test_connection, get_cursor,
    get_connection, finally, except_Error, call, call_value, bind, ret, raise,
    emit, set_cursor_var, get_cursor_var, start.

(** Split on the next outcome the run depends on. *)
Ltac step :=
  match goal with
  | |- context [match ?x with _ => _ end] =>
      lazymatch x with
      | context [match _ with _ => _ end] => fail
      | _ => destruct x eqn:?; simpl
      end
  end.

Ltac finish :=
  repeat first
    [ rewrite last_reverse | rewrite elem_of_reverse | rewrite elem_of_app
    | rewrite elem_of_cons | rewrite elem_of_nil ];
  intuition (try congruence);
  repeat match goal with H : exists _, _ |- _ => destruct H end;
  try congruence; eauto.

Ltac explore := simpl; repeat (try solve [finish]; step).

Lemma uses_cursor_only_run {A} (body : T A) (st : session) :
  uses_cursor_only body ->
  exists r evs,
    body st = (r, mkSession (evs ++ log st) (cursor_var st))
    /\ forallb cursor_event evs = true.
Proof.
  intros Hb. destruct (Hb st) as (Hv & evs & Htr & Hevs).
  destruct (body st) as [r [tr v]]. simpl in *. subst. by exists r, evs.
Qed.

Lemma not_cursor_event_not_in (ev : event) (evs : list event) :
  cursor_event ev = false -> forallb cursor_event evs = true -> ev ∉ evs.
Proof.
  intros Hev Hevs Hin. rewrite List.forallb_forall in Hevs.
  apply list_elem_of_In in Hin. apply Hevs in Hin. congruence.
Qed.

(** X14. When [connect] raises, [get_cursor] raises the same exception
    at once: the body does not run and nothing is rolled back or closed;
    a driver error is logged once. *)
Theorem connect_failure_stops {A} (s : Server) (d b : bool) (body : T A) (e : exc) :
  connect s = Some e ->
  let '(r, st) := get_cursor s d b body start in
  r = inl e
  /\ trace st =
     Connect ::
     match e with
     | Error msg => [LogError ("Error connecting to database: " ++ msg)]
     | Exception _ => []
     end.
Proof.
  intros Hc. unfold_connector. rewrite Hc. by destruct e.
Qed.

(** X17. [execute_update] commits exactly when connect, cursor and
    execute went through, and rolls back exactly when one of cursor,
    execute or commit raised a driver error; both happen in one run only
    when the commit itself raised. *)
Theorem execute_update_transaction (s : Server) (q : string) (p : option (list string)) :
  let tr := trace (execute_update s q p start).2 in
  let ex := execute s q (params_or_empty p) in
  (Commit ∈ tr <-> connect s = None /\ cursor s = None /\ ex = None)
  /\ (Rollback ∈ tr <->
      connect s = None
      /\ ((exists m, cursor s = Some (Error m))
          \/ (cursor s = None /\ exists m, ex = Some (Error m))
          \/ (cursor s = None /\ ex = None /\ exists m, commit s = Some (Error m))))
  /\ (Rollback ∈ tr -> Commit ∈ tr -> exists m, commit s = Some (Error m)).
Proof.
  unfold_connector. explore.
Qed.

(** X15. Once connected, the connection is closed as the last step of
    every run, whatever the body and the commit do, provided that closing
    the cursor does not raise; the cursor is closed exactly when it was
    opened. *)
Theorem connection_released {A} (s : Server) (d b : bool) (body : T A) :
  uses_cursor_only body ->
  connect s = None ->
  cursor s <> None \/ cursor_close s = None ->
  let tr := trace (get_cursor s d b body start).2 in
  last tr = Some ConnectionClose
  /\ (CursorClose ∈ tr <-> cursor s = None).
Proof.
  intros Hb Hc Hcl. unfold_connector. rewrite Hc. simpl.
  destruct (cursor s) as [ce|] eqn:Hcur; simpl.
  - explore.
  - destruct Hcl as [? | Hcc]; [done |]. rewrite Hcc.
    destruct (uses_cursor_only_run body (mkSession [Cursor d b; Connect] true) Hb)
      as (r & evs & -> & Hevs). simpl.
    explore.
Qed.

(** X16. If closing the cursor raises, that exception is what the caller
    gets, whatever happened before, and the connection is never closed. *)
Theorem cursor_close_failure_leaks {A} (s : Server) (d b : bool) (body : T A) (e : exc) :
  uses_cursor_only body ->
  connect s = None -> cursor s = None -> cursor_close s = Some e ->
  let '(r, st) := get_cursor s d b body start in
  r = inl e /\ (ConnectionClose ∉ trace st) /\ last (trace st) = Some CursorClose.
Proof.
  intros Hb Hc Hcur Hcc. unfold_connector. rewrite Hc, Hcur, Hcc. simpl.
  destruct (uses_cursor_only_run body (mkSession [Cursor d b; Connect] true) Hb)
    as (r & evs & -> & Hevs). simpl.
  pose proof (not_cursor_event_not_in ConnectionClose evs eq_refl Hevs) as Hno.
  explore.
Qed.

(** X19. [execute_query] returns the fetched rows exactly when connect,
    cursor, execute, fetchall, commit and both closes all went through. *)
Theorem execute_query_returns (s : Server) (q : string) (p : option (list string))
    (rows : list row) :
  (execute_query s q p start).1 = inr rows <->
  connect s = None /\ cursor s = None
  /\ execute s q (params_or_empty p) = None
  /\ fetchall s = inr rows
  /\ commit s = None /\ cursor_close s = None /\ connection_close s = None.
Proof.
  unfold_connector. explore.
Qed.

(** X20. [test_connection] never raises a driver error: it returns False
    exactly when it caught one, the line "Connection test failed" being
    the last thing logged, or when every step went through and the first
    column of the fetched row is not 1; it returns True exactly when every
    step went through and that column is 1. When no row is fetched, the body
    raises TypeError after the success line was logged, with neither commit
    nor rollback, and the caller gets that TypeError unless a close of the
    [finally] block raises: a driver error there gives False, any other
    exception is passed on. *)
Theorem test_connection_outcome (s : Server) :
  let r := (test_connection s start).1 in
  let tr := trace (test_connection s start).2 in
  (forall msg, r <> inl (Error msg))
  /\ (r = inr true <->
      connect s = None /\ cursor s = None /\ execute s "SELECT 1" [] = None
      /\ (exists rest, fetchone s = inr (Some (1 :: rest)))
      /\ commit s = None /\ cursor_close s = None /\ connection_close s = None)
  /\ (r = inr false <->
      (exists msg, last tr = Some (LogError ("Connection test failed: " ++ msg)))
      \/ (connect s = None /\ cursor s = None /\ execute s "SELECT 1" [] = None
          /\ (exists x rest, fetchone s = inr (Some (x :: rest)) /\ x <> 1)
          /\ commit s = None /\ cursor_close s = None /\ connection_close s = None))
  /\ (forall msg, connect s = Some (Error msg) ->
      r = inr false
      /\ tr = [Connect; LogError ("Error connecting to database: " ++ msg);
               LogError ("Connection test failed: " ++ msg)])
  /\ (connect s = None -> cursor s = None -> execute s "SELECT 1" [] = None ->
      fetchone s = inr None ->
      LogInfo "Database connection test successful" ∈ tr
      /\ (Commit ∉ tr) /\ (Rollback ∉ tr)
      /\ r = match first_close_failure s with
             | None => inl (Exception "TypeError")
             | Some (Error _) => inr false
             | Some (Exception m) => inl (Exception m)
             end).
Proof.
  intros r tr. unfold r, tr. clear r tr.
  split; [| split; [| split; [| split]]].
  - intros msg. unfold_connector. explore.
  - unfold_connector. explore.
    destruct (Z.eqb_spec z 1) as [-> | Hz]; finish.
  - unfold_connector. explore;
      (split;
       [ intros Hr; try discriminate Hr
       | intros [[m Hm] | (_ & _ & _ & (x & rest & Hx & Hne) & _)];
         try discriminate; try congruence ]).
    + right. repeat split; try done. exists z, r0. split; [done |].
      intros ->. discriminate Hr.
    + f_equal. apply Z.eqb_neq. congruence.
  - intros msg Hc. unfold_connector. rewrite Hc. done.
  - intros Hc Hcur Hex Hf. unfold first_close_failure. unfold_connector.
    rewrite Hc, Hcur, Hex, Hf. explore.
Qed.

(** X18. When the [except] branch of [get_cursor] is entered (the cursor
    call, the body or the commit raised a driver error) and the rollback
    raises, the error that caused it is dropped and no line is logged: the
    caller gets the exception of the rollback, or that of a close of the
    [finally] block if one raises in turn. The [finally] block still runs:
    the cursor is closed exactly when it was opened, and the connection
    unless closing the cursor raised. *)
Theorem rollback_failure_masks {A} (s : Server) (d b : bool) (body : T A) (e : exc) :
  uses_cursor_only body ->
  rollback s = Some e ->
  Rollback ∈ trace (get_cursor s d b body start).2 ->
  (get_cursor s d b body start).1
  = inl (match first_close_failure s with Some c => c | None => e end)
  /\ (forall msg, LogError msg ∉ trace (get_cursor s d b body start).2)
  /\ (CursorClose ∈ trace (get_cursor s d b body start).2 <-> cursor s = None)
  /\ (ConnectionClose ∈ trace (get_cursor s d b body start).2
      <-> cursor s <> None \/ cursor_close s = None).
Proof.
  intros Hb Hrb Hroll.
  assert (forall msg, LogError msg ∉ trace (get_cursor s d b body start).2) as Hlog.
  { intros msg. revert Hroll. unfold_connector.
    destruct (connect s) as [ce|] eqn:Hc; simpl; [destruct ce; simpl; finish |].
    destruct (cursor s) as [ce|] eqn:Hcur; simpl; [rewrite ?Hrb; explore |].
    destruct (uses_cursor_only_run body (mkSession [Cursor d b; Connect] true) Hb)
      as (r & evs & -> & Hevs). simpl.
    pose proof (not_cursor_event_not_in (LogError msg) evs eq_refl Hevs).
    pose proof (not_cursor_event_not_in Rollback evs eq_refl Hevs).
    rewrite ?Hrb. explore. }
  split; [| split; [exact Hlog |]]; clear Hlog; revert Hroll;
    unfold first_close_failure; unfold_connector;
    (destruct (connect s) as [ce|] eqn:Hc; simpl; [destruct ce; simpl; finish |]);
    (destruct (cursor s) as [ce|] eqn:Hcur; simpl; [rewrite ?Hrb; explore |]);
    destruct (uses_cursor_only_run body (mkSession [Cursor d b; Connect] true) Hb)
      as (r & evs & -> & Hevs); simpl;
    pose proof (not_cursor_event_not_in Rollback evs eq_refl Hevs);
    pose proof (not_cursor_event_not_in CursorClose evs eq_refl Hevs);
    pose proof (not_cursor_event_not_in ConnectionClose evs eq_refl Hevs);
    rewrite ?Hrb; explore.
Qed.

End MySQLProperties.

(** ** Worked instances of the further properties *)

Module MoreInstances.
Import Sample SampleServers.

Lemma store0_keys_are_ids : keys_are_ids store0.
Proof. apply map_Forall_empty. Defined.

Lemma run_requests_keys_are_ids_witness :
  keys_are_ids
    (run_requests
       [POST_theatres env1 grand_cinema;
        PUT_theatre env2 k1 bigger_cinema (Some (_calc_etag stored1));
        DELETE_theatre k2 None]
       store0).
Proof. apply run_requests_keys_are_ids. exact store0_keys_are_ids. Defined.

Lemma replacement_changes_etag :
  _calc_etag (TheatreRead_with_id env1 k1 bigger_cinema) <> _calc_etag stored1.
Proof. vm_compute. discriminate. Defined.

Lemma second_writer_refused_witness :
  status_code
    (handle (PUT_theatre env2 k1 grand_cinema (Some (_calc_etag stored1)))
       (handle (PUT_theatre env1 k1 bigger_cinema (Some (_calc_etag stored1)))
          store1).2).1 = 412.
Proof.
  exact (proj1 (proj2 (second_writer_refused store1 env1 env2 k1 bigger_cinema
    grand_cinema stored1 Instances.store1_k1 replacement_changes_etag))).
Defined.

Lemma post_answers_201 :
  status_code (handle (POST_theatres env1 grand_cinema) store0).1 = 200
  \/ status_code (handle (POST_theatres env1 grand_cinema) store0).1 = 201.
Proof. right. vm_compute. reflexivity. Defined.

Lemma write_then_read_witness :
  exists stored etag,
    handle (GET_theatre k1 (Some etag))
           (handle (POST_theatres env1 grand_cinema) store0).2
    = (mkResponse 304 [("ETag"%string, etag)] Empty,
       (handle (POST_theatres env1 grand_cinema) store0).2)
    /\ body (handle (POST_theatres env1 grand_cinema) store0).1 = Model stored.
Proof.
  pose proof (write_then_read (POST_theatres env1 grand_cinema) store0
                post_answers_201) as W.
  destruct (handle (POST_theatres env1 grand_cinema) store0) as [w g1].
  destruct W as (stored & etag & Hb & _ & _ & H304).
  exists stored, etag. split; [exact H304 | exact Hb].
Defined.

Lemma delete_answers_200 :
  status_code (handle (DELETE_theatre k1 None) store1).1 = 200.
Proof. vm_compute. reflexivity. Defined.

Lemma deleted_stays_deleted_witness :
  status_code
    (handle (PUT_theatre env1 k1 grand_cinema None)
       (handle (DELETE_theatre k1 None) store1).2).1 = 404.
Proof.
  exact (proj1 (deleted_stays_deleted store1 k1 None
    (PUT_theatre env1 k1 grand_cinema None) delete_answers_200 eq_refl)).
Defined.

Lemma wildcard_is_no_etag : is_etag_format "*" = false.
Proof. vm_compute. reflexivity. Defined.

Lemma malformed_validator_never_matches_witness :
  status_code (handle (PUT_theatre env1 k1 grand_cinema (Some "*"%string)) store1).1
  = 412
  /\ (handle (PUT_theatre env1 k1 grand_cinema (Some "*"%string)) store1).2 = store1.
Proof.
  pose proof (malformed_validator_never_matches store1 env1 k1 grand_cinema
    stored1 "*" Instances.store1_k1 wildcard_is_no_etag) as (H412 & Hsame & _).
  split; [exact H412 | exact Hsame].
Defined.

Lemma get_answers_200 : status_code (handle (GET_theatre k1 None) store1).1 <> 304.
Proof. vm_compute. discriminate. Defined.

Lemma get_theatre_2_agrees_witness :
  status_code (serve 200 (get_theatre_2 k1) store1).1
  = status_code (handle (GET_theatre k1 None) store1).1.
Proof.
  pose proof (get_theatre_2_agrees store1 k1 None) as W.
  pose proof get_answers_200 as H304.
  destruct (serve 200 (get_theatre_2 k1) store1) as [r2 g2].
  destruct (handle (GET_theatre k1 None) store1) as [r1 g1].
  destruct W as (_ & _ & _ & W). exact (proj1 (W H304)).
Defined.

Lemma default_injective_witness : PyUUID k1 = PyUUID k1.
Proof.
  apply default_injective; [vm_compute; reflexivity .. | reflexivity].
Defined.

Lemma host_a_resolves : gethostbyname host_a = Some "10.0.0.1"%string.
Proof. reflexivity. Defined.

Lemma noon_valid : valid_datetime noon = true.
Proof. vm_compute. reflexivity. Defined.

Lemma make_health_answer_witness :
  exists h, make_health host_a (Some "ping"%string) None = Some h
    /\ is_timestamp_format (h_timestamp h) = true
    /\ forall h', make_health host_b None None = Some h' ->
          h_timestamp h' = h_timestamp h -> utcnow host_b = utcnow host_a.
Proof.
  pose proof (make_health_answer host_a (Some "ping"%string) None) as W.
  rewrite host_a_resolves in W. destruct W as (h & Hh & _ & Hts & Hback).
  exists h. split; [exact Hh |]. split; [exact Hts |].
  intros h'. exact (Hback host_b None None h' noon_valid noon_valid).
Defined.

Lemma rows_valid : Forall (fun x => valid_row x = true) rows.
Proof. repeat constructor. Defined.

Lemma list_theatres_entries_witness :
  (exists obj,
     list_theatres (Some "Odeon"%string) None None None rows !! 0%nat = Some obj
     /\ getitem (pystr_of_string "name") obj
        = Some (PyStr (pystr_of_string "Grand Cinema"))
     /\ getitem (pystr_of_string "updated_at") obj
        = Some (PyStr (pystr_of_string "2025-06-01T12:00:00.250000Z")))
  /\ (list_theatres (Some "Odeon"%string) None None None rows
      = list_theatres (Some "Odeon"%string) None None None rows -> rows = rows).
Proof.
  destruct (list_theatres_entries (Some "Odeon"%string) None None None rows)
    as (_ & Hentry & _ & Hback).
  split.
  - destruct (Hentry 0%nat _ eq_refl)
      as (obj & created & updated & Hobj & _ & Hname & _ & _ & _ & -> & _ & Hupd & _).
    exists obj. split; [exact Hobj |]. split; [exact Hname | exact Hupd].
  - exact (Hback rows rows_valid rows_valid).
Defined.

Import MySQL MySQLProperties.

Lemma query_body_uses_cursor_only (s : Server) (q : string) :
  uses_cursor_only (query_body s q).
Proof.
  intros st. unfold query_body, call, call_value, bind, emit, ret, raise. simpl.
  destruct (execute s q []) as [e|]; simpl.
  - split; [done |]. by exists [Execute q []].
  - destruct (fetchall s) as [e | r]; simpl;
      (split; [done |]); by exists [FetchAll; Execute q []].
Qed.

Lemma connect_failure_stops_witness :
  (get_cursor unreachable false false (query_body unreachable "SELECT 1") start).1
  = inl (Error "Can't connect").
Proof.
  pose proof (connect_failure_stops unreachable false false
                (query_body unreachable "SELECT 1") _ eq_refl) as W.
  destruct (get_cursor unreachable false false
              (query_body unreachable "SELECT 1") start) as [r st].
  exact (proj1 W).
Defined.

Lemma connection_released_witness :
  last (trace (get_cursor healthy false false (query_body healthy "SELECT 1")
                 start).2)
  = Some ConnectionClose.
Proof.
  exact (proj1 (connection_released healthy false false
    (query_body healthy "SELECT 1") (query_body_uses_cursor_only _ _)
    eq_refl (or_intror eq_refl))).
Defined.

Lemma cursor_close_failure_leaks_witness :
  (get_cursor stuck_cursor false false (query_body stuck_cursor "SELECT 1")
     start).1
  = inl (Error "Unread result found").
Proof.
  pose proof (cursor_close_failure_leaks stuck_cursor false false
    (query_body stuck_cursor "SELECT 1") _
    (query_body_uses_cursor_only _ _) eq_refl eq_refl eq_refl) as W.
  destruct (get_cursor stuck_cursor false false
              (query_body stuck_cursor "SELECT 1") start) as [r st].
  exact (proj1 W).
Defined.

Lemma failing_commit_trace :
  Rollback ∈ trace (execute_update failing_commit "UPDATE t SET x = 1" None start).2
  /\ Commit ∈ trace (execute_update failing_commit "UPDATE t SET x = 1" None start).2.
Proof. vm_compute. split; repeat constructor. Defined.

Lemma execute_update_transaction_witness :
  exists m, commit failing_commit = Some (Error m).
Proof.
  exact (proj2 (proj2 (execute_update_transaction failing_commit
    "UPDATE t SET x = 1" None)) (proj1 failing_commit_trace)
    (proj2 failing_commit_trace)).
Defined.

Lemma rollback_reached_after_cursor :
  Rollback ∈ trace (get_cursor no_cursor_bad_rollback false false
                      (query_body no_cursor_bad_rollback "SELECT 1") start).2.
Proof. vm_compute. repeat constructor. Defined.

Lemma rollback_reached_after_commit :
  Rollback ∈ trace (get_cursor failing_commit_bad_rollback false false
                      (query_body failing_commit_bad_rollback "SELECT 1") start).2.
Proof. vm_compute. repeat constructor. Defined.

Lemma rollback_failure_masks_witness :
  ((get_cursor no_cursor_bad_rollback false false
      (query_body no_cursor_bad_rollback "SELECT 1") start).1
   = inl (Error "gone away")
   /\ ~ (CursorClose ∈ trace (get_cursor no_cursor_bad_rollback false false
                              (query_body no_cursor_bad_rollback "SELECT 1")
                              start).2))
  /\ (get_cursor failing_commit_bad_rollback false false
        (query_body failing_commit_bad_rollback "SELECT 1") start).1
     = inl (Exception "socket closed").
Proof.
  split.
  - pose proof (rollback_failure_masks no_cursor_bad_rollback false false
      (query_body no_cursor_bad_rollback "SELECT 1") _
      (query_body_uses_cursor_only _ _) eq_refl rollback_reached_after_cursor)
      as (Hr & _ & Hcc & _).
    split; [exact Hr |]. intros Hin. apply Hcc in Hin. discriminate Hin.
  - exact (proj1 (rollback_failure_masks failing_commit_bad_rollback false false
      (query_body failing_commit_bad_rollback "SELECT 1") _
      (query_body_uses_cursor_only _ _) eq_refl rollback_reached_after_commit)).
Defined.

Lemma execute_query_returns_witness :
  (execute_query healthy "SELECT x FROM t" None start).1 = inr [[1]; [2]].
Proof.
  apply (proj2 (execute_query_returns healthy "SELECT x FROM t" None [[1]; [2]])).
  repeat split.
Defined.

Lemma test_connection_outcome_witness :
  (test_connection no_row start).1 = inl (Exception "TypeError")
  /\ (test_connection no_row_stuck_cursor start).1 = inr false.
Proof.
  split.
  - pose proof (test_connection_outcome no_row) as (_ & _ & _ & _ & H).
    exact (proj2 (proj2 (proj2 (H eq_refl eq_refl eq_refl eq_refl)))).
  - pose proof (test_connection_outcome no_row_stuck_cursor) as (_ & _ & _ & _ & H).
    exact (proj2 (proj2 (proj2 (H eq_refl eq_refl eq_refl eq_refl)))).
Defined.

End MoreInstances.
